(** * holt59::fraction — rational arithmetic (src/cpp/fraction.hpp)

    A shallow embedding of the [fraction<T>] class template and a proof
    development about its normalization invariant.

    The template leaves the integer type [T] to the caller, and the
    embedding keeps it as a parameter with two instances:

    - [Int32] is [int] as the header's own test instantiates it: 32 bits,
      two's complement.  [+], [-], [*], unary [-] and [std::abs] wrap
      around; [/] truncates towards zero and [%] is the matching
      remainder; a division or remainder by zero has no result
      ([DivByZero]), nor has the division or remainder of the minimum
      integer by -1 ([DivOverflow]).
    - [Unbounded] is exact integer arithmetic, the idealisation in which
      nothing overflows: only the division by zero remains.

    The preprocessor conditional at the top of the header selects either
    the recursive [gcd] helper or [std::gcd]; the embedding keeps that
    choice as the parameter [standard]. *)

From Stdlib Require Import ZArith QArith Lia Bool.
From Equations Require Import Equations.

Local Open Scope Z_scope.

(** ** Outcomes of an execution: a value, or a trapping integer division *)

Inductive outcome (A : Type) : Type :=
| Done (a : A)
| DivByZero
| DivOverflow.
Arguments Done {A} a.
Arguments DivByZero {A}.
Arguments DivOverflow {A}.

Definition bind {A B : Type} (x : outcome A) (k : A -> outcome B) : outcome B :=
  match x with
  | Done a => k a
  | DivByZero => DivByZero
  | DivOverflow => DivOverflow
  end.

Notation "x <- e1 ;; e2" := (bind e1 (fun x => e2))
  (at level 61, e1 at next level, right associativity).

(** ** The integer type [T] *)

Inductive int_type : Type := Unbounded | Int32.

Definition int_min : Z := -2147483648.
Definition int_max : Z := 2147483647.

(** The 32-bit two's complement value congruent to [z]. *)
Definition wrap32 (z : Z) : Z := (z + 2147483648) mod 4294967296 - 2147483648.

(** What is stored when the mathematical result of an operation is [z]. *)
Definition fit (T : int_type) (z : Z) : Z :=
  match T with
  | Unbounded => z
  | Int32 => wrap32 z
  end.

(** [z] is a value of the type. *)
Definition in_type (T : int_type) (z : Z) : Prop :=
  match T with
  | Unbounded => True
  | Int32 => int_min <= z <= int_max
  end.

(** [z] is a value of the type and so is [-z]: every integer when nothing
    overflows, every [int] but the minimum one. *)
Definition safe (T : int_type) (z : Z) : Prop :=
  match T with
  | Unbounded => True
  | Int32 => Z.abs z <= int_max
  end.

Definition int_add (T : int_type) (x y : Z) : Z := fit T (x + y).
Definition int_sub (T : int_type) (x y : Z) : Z := fit T (x - y).
Definition int_mul (T : int_type) (x y : Z) : Z := fit T (x * y).
Definition int_neg (T : int_type) (x : Z) : Z := fit T (- x).
Definition int_abs (T : int_type) (x : Z) : Z := fit T (Z.abs x).

(** The quotient of [x] by [y] is not a value of the type. *)
Definition quot_overflows (T : int_type) (x y : Z) : bool :=
  match T with
  | Unbounded => false
  | Int32 => (x =? int_min) && (y =? -1)
  end.

(** [x / y] and [x % y]. *)
Definition int_div (T : int_type) (x y : Z) : outcome Z :=
  if y =? 0 then DivByZero
  else if quot_overflows T x y then DivOverflow
  else Done (Z.quot x y).

Definition int_rem (T : int_type) (x y : Z) : outcome Z :=
  if y =? 0 then DivByZero
  else if quot_overflows T x y then DivOverflow
  else Done (Z.rem x y).

(** ** The gcd helper (fraction.hpp, lines 11-14)

    [return n == 0 ? m : gcd(n, m % n);]
    The remainder is only taken when [n] is not zero. *)

Definition inspect {A : Type} (a : A) : {b : A | a = b} := exist _ a eq_refl.

Equations? gcd (T : int_type) (m n : Z) : outcome Z by wf (Z.abs_nat n) lt :=
  gcd T m n with Z.eq_dec n 0 => {
    | left _ := Done m;
    | right _ with inspect (int_rem T m n) => {
        | exist _ (Done r) H := gcd T n r;
        | exist _ DivByZero _ := DivByZero;
        | exist _ DivOverflow _ := DivOverflow } }.
Proof.
  unfold int_rem in H.
  destruct (n =? 0); [discriminate H|].
  destruct (quot_overflows T m n); [discriminate H|].
  injection H as <-.
  pose proof (Z.rem_bound_abs m n ltac:(assumption)). lia.
Qed.

(** [std::gcd] of <numeric>, which line 16 selects from C++17 on: the
    greatest common divisor of the magnitudes, converted to the type. *)
Definition std_gcd (T : int_type) (m n : Z) : Z := fit T (Z.gcd m n).

(** Which branch of the conditional of lines 10-17 is compiled. *)
Inductive standard : Type := Cpp14 | Cpp17.

(** The function the name [gcd] denotes inside the class. *)
Definition sel_gcd (T : int_type) (S : standard) (m n : Z) : outcome Z :=
  match S with
  | Cpp14 => gcd T m n
  | Cpp17 => Done (std_gcd T m n)
  end.

(** ** The class (fraction.hpp, lines 19-96) *)

Record fraction : Type := mk_fraction { num_ : Z; den_ : Z }.

(** Accessors [num()], [den()]. *)
Definition num (f : fraction) : Z := num_ f.
Definition den (f : fraction) : Z := den_ f.

(** [normalize_()], lines 83-89: the four statements in order, each
    assignment acting on the object as the previous one left it. *)
Definition normalize_ (T : int_type) (S : standard) (self : fraction)
  : outcome fraction :=
  g <- sel_gcd T S (int_abs T (num_ self)) (int_abs T (den_ self)) ;;
  let m := if den_ self <? 0 then -1 else 1 in
  q <- int_div T (num_ self) g ;;
  let self := mk_fraction (int_mul T q m) (den_ self) in
  q <- int_div T (den_ self) g ;;
  let self := mk_fraction (num_ self) (int_mul T q m) in
  Done self.

(** [normalize_(num, den)], lines 91-95: overwrite both fields, then
    normalize. *)
Definition normalize_2 (T : int_type) (S : standard) (num den : Z)
    (self : fraction) : outcome fraction :=
  let self := mk_fraction num (den_ self) in
  let self := mk_fraction (num_ self) den in
  normalize_ T S self.

(** The constructor [fraction(num = 0, den = 1)], lines 25-28. *)
Definition fraction_ctor (T : int_type) (S : standard) (num den : Z)
  : outcome fraction :=
  normalize_ T S (mk_fraction num den).

Definition fraction_default (T : int_type) (S : standard) : outcome fraction :=
  fraction_ctor T S 0 1.
Definition fraction_of_int (T : int_type) (S : standard) (v : Z)
  : outcome fraction :=
  fraction_ctor T S v 1.
Definition zero (T : int_type) (S : standard) : outcome fraction :=
  fraction_default T S.

(** [operator=(value_type const&)], lines 35-37. *)
Definition assign_int (T : int_type) (S : standard) (self : fraction) (t : Z)
  : outcome fraction :=
  fraction_of_int T S t.

(** Unary [+] and [-], lines 39-40. *)
Definition operator_pos (self : fraction) : outcome fraction := Done self.
Definition operator_neg (T : int_type) (S : standard) (self : fraction)
  : outcome fraction :=
  fraction_ctor T S (int_neg T (num_ self)) (den_ self).

(** The compound assignments, lines 42-68.  Each has an overload taking
    a fraction and one taking a bare [value_type], which builds
    [fraction(rhs)] and forwards. *)
Definition add_assign (T : int_type) (S : standard) (self rhs : fraction)
  : outcome fraction :=
  normalize_2 T S
    (int_add T (int_mul T (num self) (den rhs)) (int_mul T (den self) (num rhs)))
    (int_mul T (den self) (den rhs)) self.
Definition add_assign_int (T : int_type) (S : standard) (self : fraction) (rhs : Z)
  : outcome fraction :=
  r <- fraction_of_int T S rhs ;; add_assign T S self r.

Definition sub_assign (T : int_type) (S : standard) (self rhs : fraction)
  : outcome fraction :=
  normalize_2 T S
    (int_sub T (int_mul T (num self) (den rhs)) (int_mul T (den self) (num rhs)))
    (int_mul T (den self) (den rhs)) self.
Definition sub_assign_int (T : int_type) (S : standard) (self : fraction) (rhs : Z)
  : outcome fraction :=
  r <- fraction_of_int T S rhs ;; sub_assign T S self r.

Definition mul_assign (T : int_type) (S : standard) (self rhs : fraction)
  : outcome fraction :=
  normalize_2 T S
    (int_mul T (num self) (num rhs)) (int_mul T (den self) (den rhs)) self.
Definition mul_assign_int (T : int_type) (S : standard) (self : fraction) (rhs : Z)
  : outcome fraction :=
  r <- fraction_of_int T S rhs ;; mul_assign T S self r.

Definition div_assign (T : int_type) (S : standard) (self rhs : fraction)
  : outcome fraction :=
  normalize_2 T S
    (int_mul T (num self) (den rhs)) (int_mul T (den self) (num rhs)) self.
Definition div_assign_int (T : int_type) (S : standard) (self : fraction) (rhs : Z)
  : outcome fraction :=
  r <- fraction_of_int T S rhs ;; div_assign T S self r.

(** [operator!] and [explicit operator bool], lines 70-72. *)
Definition operator_not (self : fraction) : bool := negb (num_ self =? 0).
Definition operator_bool (self : fraction) : bool := num_ self =? 0.

(** Predicates, lines 77-78. *)
Definition is_integral (self : fraction) : bool := den_ self =? 1.
Definition is_legal (self : fraction) : bool := negb (den_ self =? 0).

(** Comparisons, lines 98-121. *)
Definition operator_eq (lhs rhs : fraction) : bool :=
  (num lhs =? num rhs) && (den lhs =? den rhs).
Definition operator_ne (lhs rhs : fraction) : bool :=
  negb (num lhs =? num rhs) || negb (den lhs =? den rhs).
Definition operator_lt (T : int_type) (lhs rhs : fraction) : bool :=
  int_mul T (num lhs) (den rhs) <? int_mul T (num rhs) (den lhs).
Definition operator_le (T : int_type) (lhs rhs : fraction) : bool :=
  int_mul T (num lhs) (den rhs) <=? int_mul T (num rhs) (den lhs).
Definition operator_gt (T : int_type) (lhs rhs : fraction) : bool :=
  int_mul T (num lhs) (den rhs) >? int_mul T (num rhs) (den lhs).
Definition operator_ge (T : int_type) (lhs rhs : fraction) : bool :=
  int_mul T (num lhs) (den rhs) >=? int_mul T (num rhs) (den lhs).

(** The free binary operators, lines 123-141: templates over the type [U]
    of the right operand, which overload resolution of the compound
    assignment then sends to the fraction or to the [value_type] overload. *)
Inductive operand : Type :=
| Frac (f : fraction)
| Int (v : Z).

Definition operator_add (T : int_type) (S : standard) (lhs : fraction)
    (rhs : operand) : outcome fraction :=
  match rhs with
  | Frac r => add_assign T S lhs r
  | Int v => add_assign_int T S lhs v
  end.
Definition operator_sub (T : int_type) (S : standard) (lhs : fraction)
    (rhs : operand) : outcome fraction :=
  match rhs with
  | Frac r => sub_assign T S lhs r
  | Int v => sub_assign_int T S lhs v
  end.
Definition operator_mul (T : int_type) (S : standard) (lhs : fraction)
    (rhs : operand) : outcome fraction :=
  match rhs with
  | Frac r => mul_assign T S lhs r
  | Int v => mul_assign_int T S lhs v
  end.
Definition operator_div (T : int_type) (S : standard) (lhs : fraction)
    (rhs : operand) : outcome fraction :=
  match rhs with
  | Frac r => div_assign T S lhs r
  | Int v => div_assign_int T S lhs v
  end.

(** ** The canonical form *)

(** Lowest terms with a positive denominator, in the words of the
    invariants: [gcd(|num|, |den|) == 1] and [den > 0]. *)
Definition canonical (f : fraction) : Prop :=
  Z.gcd (Z.abs (num f)) (Z.abs (den f)) = 1 /\ 0 < den f.

(** Two pairs denote the same rational value. *)
Definition same_value (n d : Z) (f : fraction) : Prop :=
  num f * d = n * den f.

(** Both fields can be negated in the type. *)
Definition safe_fields (T : int_type) (f : fraction) : Prop :=
  safe T (num f) /\ safe T (den f).

(** A pair in normal form: canonical with fields that can be negated, or
    one of the two illegal pairs (1, 0) and (-1, 0). *)
Definition settled (T : int_type) (f : fraction) : Prop :=
  (canonical f /\ safe_fields T f) \/
  (den f = 0 /\ (num f = 1 \/ num f = -1)).

(** ** Values that a program can hold

    The two fields are private: a [fraction] object is only ever built by
    a constructor and changed by the members above, from arguments that
    are values of [T]. *)

Inductive binop : Type := Add | Sub | Mul | Div.

Definition apply_binop (T : int_type) (S : standard) (op : binop)
  : fraction -> operand -> outcome fraction :=
  match op with
  | Add => operator_add T S
  | Sub => operator_sub T S
  | Mul => operator_mul T S
  | Div => operator_div T S
  end.

Inductive produced (T : int_type) (S : standard) : fraction -> Prop :=
| produced_ctor n d f :
    in_type T n -> in_type T d ->
    fraction_ctor T S n d = Done f -> produced T S f
| produced_assign_int a t f :
    produced T S a -> in_type T t ->
    assign_int T S a t = Done f -> produced T S f
| produced_pos a f :
    produced T S a -> operator_pos a = Done f -> produced T S f
| produced_neg a f :
    produced T S a -> operator_neg T S a = Done f -> produced T S f
| produced_binop_frac op a r f :
    produced T S a -> produced T S r ->
    apply_binop T S op a (Frac r) = Done f -> produced T S f
| produced_binop_int op a v f :
    produced T S a -> in_type T v ->
    apply_binop T S op a (Int v) = Done f -> produced T S f.

(** ** The arithmetic table and the normal form of the specification

    The raw pair that each binary operation is specified to build from
    [a = (n1, d1)] and [b = (n2, d2)], with the arithmetic of [T]; the
    lifting of a bare integer; and the normal form of section 4.1, which
    for [d = 0] leaves the pair as it is.  These follow the wording of the
    specification and are compared with the operators above. *)

Definition spec_lift (v : Z) : fraction := mk_fraction v 1.

Definition spec_raw (T : int_type) (op : binop) (a b : fraction) : Z * Z :=
  let n1 := num a in let d1 := den a in
  let n2 := num b in let d2 := den b in
  match op with
  | Add => (int_add T (int_mul T n1 d2) (int_mul T d1 n2), int_mul T d1 d2)
  | Sub => (int_sub T (int_mul T n1 d2) (int_mul T d1 n2), int_mul T d1 d2)
  | Mul => (int_mul T n1 n2, int_mul T d1 d2)
  | Div => (int_mul T n1 d2, int_mul T d1 n2)
  end.

Definition spec_normalize (p : Z * Z) : fraction :=
  let n := fst p in
  let d := snd p in
  if d =? 0 then mk_fraction n 0
  else
    let g := Z.gcd (Z.abs n) (Z.abs d) in
    let s := if d <? 0 then -1 else 1 in
    mk_fraction (Z.quot n g * s) (Z.quot d g * s).

(** No product, sum or difference that the operation computes leaves the
    range in which the type is exact. *)
Definition no_overflow (T : int_type) (op : binop) (a b : fraction) : Prop :=
  let n1 := num a in let d1 := den a in
  let n2 := num b in let d2 := den b in
  match op with
  | Add => safe T (n1 * d2) /\ safe T (d1 * n2) /\
           safe T (n1 * d2 + d1 * n2) /\ safe T (d1 * d2)
  | Sub => safe T (n1 * d2) /\ safe T (d1 * n2) /\
           safe T (n1 * d2 - d1 * n2) /\ safe T (d1 * d2)
  | Mul => safe T (n1 * n2) /\ safe T (d1 * d2)
  | Div => safe T (n1 * d2) /\ safe T (d1 * n2)
  end.

(** ** The rational number a legal value stands for

    Only meaningful when the denominator is positive. *)
Definition to_Q (f : fraction) : Q := Qmake (num f) (Z.to_pos (den f)).

(** Read the fields through the accessors. *)
Ltac fields := unfold num, den in *; cbn [num_ den_] in *.

(** * Arithmetic of the integer type *)

Lemma wrap32_range (z : Z) : int_min <= wrap32 z <= int_max.
Proof.
  unfold wrap32, int_min, int_max.
  pose proof (Z.mod_pos_bound (z + 2147483648) 4294967296 ltac:(lia)). lia.
Qed.

Lemma wrap32_small (z : Z) : int_min <= z <= int_max -> wrap32 z = z.
Proof.
  unfold wrap32, int_min, int_max. intros H.
  rewrite Z.mod_small by lia. lia.
Qed.

Lemma wrap32_shift (z k : Z) : wrap32 (z + k * 4294967296) = wrap32 z.
Proof.
  unfold wrap32.
  replace (z + k * 4294967296 + 2147483648)
    with (z + 2147483648 + k * 4294967296) by ring.
  rewrite Z.mod_add by lia. reflexivity.
Qed.

Lemma wrap32_decompose (z : Z) : exists k, wrap32 z = z + k * 4294967296.
Proof.
  exists (- ((z + 2147483648) / 4294967296)). unfold wrap32.
  pose proof (Z.div_mod (z + 2147483648) 4294967296 ltac:(lia)). lia.
Qed.

Lemma fit_in_type (T : int_type) (z : Z) : in_type T (fit T z).
Proof. destruct T; cbn; [exact I|apply wrap32_range]. Qed.

Lemma fit_id (T : int_type) (z : Z) : in_type T z -> fit T z = z.
Proof. destruct T; cbn; [reflexivity|apply wrap32_small]. Qed.

Lemma safe_in_type (T : int_type) (z : Z) : safe T z -> in_type T z.
Proof. destruct T; cbn; unfold int_min, int_max; [auto|lia]. Qed.

Lemma fit_safe (T : int_type) (z : Z) : safe T z -> fit T z = z.
Proof. intros H. apply fit_id, safe_in_type, H. Qed.

Lemma safe_abs (T : int_type) (z : Z) : safe T z -> safe T (Z.abs z).
Proof. destruct T; cbn; [auto|lia]. Qed.

Lemma safe_opp (T : int_type) (z : Z) : safe T z -> safe T (- z).
Proof. destruct T; cbn; [auto|lia]. Qed.

Lemma safe_le (T : int_type) (x y : Z) :
  Z.abs x <= Z.abs y -> safe T y -> safe T x.
Proof. destruct T; cbn; [auto|lia]. Qed.

Lemma safe_small (T : int_type) (z : Z) : Z.abs z <= 1 -> safe T z.
Proof. destruct T; cbn; unfold int_max; [auto|lia]. Qed.

(** A value of the type that cannot be negated is the minimum [int]. *)
Lemma in_type_cases (T : int_type) (z : Z) :
  in_type T z -> safe T z \/ (T = Int32 /\ z = int_min).
Proof.
  destruct T; cbn; unfold int_min, int_max; [auto|].
  intros H. destruct (Z.eq_dec z (-2147483648)); [right; auto|left; lia].
Qed.

(** [fit] only depends on the residue, so it commutes with the ring
    operations. *)
Lemma fit_add_l (T : int_type) (x y : Z) : fit T (fit T x + y) = fit T (x + y).
Proof.
  destruct T; cbn; [reflexivity|].
  destruct (wrap32_decompose x) as [k ->].
  replace (x + k * 4294967296 + y) with (x + y + k * 4294967296) by ring.
  apply wrap32_shift.
Qed.

Lemma fit_add_r (T : int_type) (x y : Z) : fit T (x + fit T y) = fit T (x + y).
Proof. rewrite Z.add_comm, fit_add_l, Z.add_comm. reflexivity. Qed.

Lemma fit_mul_l (T : int_type) (x y : Z) : fit T (fit T x * y) = fit T (x * y).
Proof.
  destruct T; cbn; [reflexivity|].
  destruct (wrap32_decompose x) as [k ->].
  replace ((x + k * 4294967296) * y) with (x * y + (k * y) * 4294967296) by ring.
  apply wrap32_shift.
Qed.

Lemma fit_mul_r (T : int_type) (x y : Z) : fit T (x * fit T y) = fit T (x * y).
Proof. rewrite Z.mul_comm, fit_mul_l, Z.mul_comm. reflexivity. Qed.

Lemma fit_opp (T : int_type) (x : Z) : fit T (- fit T x) = fit T (- x).
Proof.
  destruct T; cbn; [reflexivity|].
  destruct (wrap32_decompose x) as [k ->].
  replace (- (x + k * 4294967296)) with (- x + (- k) * 4294967296) by ring.
  apply wrap32_shift.
Qed.

Lemma fit_sub_r (T : int_type) (x y : Z) : fit T (x - fit T y) = fit T (x - y).
Proof.
  unfold Z.sub. rewrite <- (fit_add_r T x (- fit T y)), fit_opp, fit_add_r.
  reflexivity.
Qed.

Lemma fit_sub_l (T : int_type) (x y : Z) : fit T (fit T x - y) = fit T (x - y).
Proof. unfold Z.sub. apply fit_add_l. Qed.

(** A non-zero integer of magnitude at most 2^31 is not stored as zero. *)
Lemma fit_nonzero (T : int_type) (z : Z) :
  z <> 0 -> Z.abs z <= 2147483648 -> fit T z <> 0.
Proof.
  destruct T; cbn; [auto|]. intros Hz Hb.
  destruct (Z.eq_dec z 2147483648) as [->|Hne]; [discriminate|].
  rewrite wrap32_small by (unfold int_min, int_max; lia). exact Hz.
Qed.

Lemma abs_fit (T : int_type) (z : Z) :
  Z.abs z <= 2147483648 -> Z.abs (fit T z) = Z.abs z.
Proof.
  destruct T; cbn; [auto|]. intros Hb.
  destruct (Z.eq_dec z 2147483648) as [->|Hne]; [reflexivity|].
  rewrite wrap32_small by (unfold int_min, int_max; lia). reflexivity.
Qed.

Lemma in_type_abs_bound (T : int_type) (z : Z) :
  T = Int32 -> in_type T z -> Z.abs z <= 2147483648.
Proof. intros ->. cbn. unfold int_min, int_max. lia. Qed.

Lemma int_abs_abs (T : int_type) (x : Z) :
  in_type T x -> Z.abs (int_abs T x) = Z.abs x.
Proof.
  unfold int_abs. destruct T; [cbn; intros _; apply Z.abs_idemp|].
  intros H. rewrite abs_fit.
  - apply Z.abs_idemp.
  - rewrite Z.abs_idemp. apply (in_type_abs_bound Int32); auto.
Qed.

Lemma int_abs_safe (T : int_type) (x : Z) : safe T x -> int_abs T x = Z.abs x.
Proof. intros H. unfold int_abs. apply fit_safe, safe_abs, H. Qed.

Lemma int_div_done (T : int_type) (x y : Z) :
  y <> 0 -> quot_overflows T x y = false -> int_div T x y = Done (Z.quot x y).
Proof.
  intros Hy Ho. unfold int_div. apply Z.eqb_neq in Hy. rewrite Hy, Ho.
  reflexivity.
Qed.

Lemma int_div_inv (T : int_type) (x y q : Z) :
  int_div T x y = Done q -> y <> 0 /\ q = Z.quot x y.
Proof.
  unfold int_div. destruct (Z.eqb_spec y 0); [discriminate|].
  destruct (quot_overflows T x y); [discriminate|].
  intros H. injection H as <-. auto.
Qed.

Lemma int_rem_inv (T : int_type) (x y r : Z) :
  int_rem T x y = Done r -> y <> 0 /\ r = Z.rem x y.
Proof.
  unfold int_rem. destruct (Z.eqb_spec y 0); [discriminate|].
  destruct (quot_overflows T x y); [discriminate|].
  intros H. injection H as <-. auto.
Qed.

Lemma no_overflow_of_safe (T : int_type) (x y : Z) :
  safe T x -> quot_overflows T x y = false.
Proof.
  destruct T; cbn; [reflexivity|]. unfold int_min, int_max. intros H.
  destruct (Z.eqb_spec x (-2147483648)); [lia|reflexivity].
Qed.

Lemma no_overflow_of_divisor (T : int_type) (x y : Z) :
  y <> -1 -> quot_overflows T x y = false.
Proof.
  destruct T; cbn; [reflexivity|]. intros H.
  destruct (Z.eqb_spec y (-1)); [contradiction|apply andb_false_r].
Qed.

(** * The gcd helper *)

Lemma gcd_step (T : int_type) (m n : Z) :
  gcd T m n = if n =? 0 then Done m else r <- int_rem T m n ;; gcd T n r.
Proof.
  rewrite gcd_equation_1.
  destruct (Z.eq_dec n 0) as [->|Hn]; cbn; [reflexivity|].
  rewrite (proj2 (Z.eqb_neq n 0) Hn).
  unfold inspect. destruct (int_rem T m n); reflexivity.
Qed.

(** Whatever the helper returns is, up to its sign, the greatest common
    divisor. *)
Lemma gcd_done_abs (T : int_type) (n : Z) :
  forall m g, gcd T m n = Done g -> Z.abs g = Z.gcd m n.
Proof.
  assert (H : forall k, 0 <= k -> forall n m g, Z.abs n = k ->
              gcd T m n = Done g -> Z.abs g = Z.gcd m n).
  { apply (Zlt_0_ind (fun k => forall n m g, Z.abs n = k ->
                        gcd T m n = Done g -> Z.abs g = Z.gcd m n)).
    intros k IH Hk n' m g Hn' Hrun.
    rewrite gcd_step in Hrun.
    destruct (Z.eqb_spec n' 0) as [->|Hn0].
    - injection Hrun as <-. rewrite Z.gcd_0_r. reflexivity.
    - destruct (int_rem T m n') as [r| |] eqn:Hrem; try discriminate Hrun.
      cbn [bind] in Hrun. apply int_rem_inv in Hrem. destruct Hrem as [_ ->].
      pose proof (Z.rem_bound_abs m n' Hn0) as Hr.
      rewrite (IH (Z.abs (Z.rem m n')) ltac:(lia) _ _ _ eq_refl Hrun).
      rewrite Z.gcd_comm, Z.gcd_rem by exact Hn0. apply Z.gcd_comm. }
  intros m g. apply (H (Z.abs n)); [lia|reflexivity].
Qed.

(** On non-negative arguments the helper returns the greatest common
    divisor. *)
Lemma gcd_nonneg (T : int_type) (n : Z) :
  0 <= n -> forall m, 0 <= m -> gcd T m n = Done (Z.gcd m n).
Proof.
  revert n.
  apply (Zlt_0_ind (fun n => forall m, 0 <= m -> gcd T m n = Done (Z.gcd m n))).
  intros n IH Hn m Hm.
  rewrite gcd_step.
  destruct (Z.eqb_spec n 0) as [->|Hn0].
  - rewrite Z.gcd_0_r. f_equal. lia.
  - unfold int_rem. rewrite (proj2 (Z.eqb_neq n 0) Hn0).
    rewrite no_overflow_of_divisor by lia. cbn [bind].
    pose proof (Z.rem_bound_pos m n Hm ltac:(lia)) as Hr.
    rewrite IH by lia.
    rewrite Z.gcd_comm, Z.gcd_rem by exact Hn0. f_equal. apply Z.gcd_comm.
Qed.

Lemma Zgcd_le_max (m n : Z) :
  0 <= m -> 0 <= n -> Z.gcd m n <= Z.max m n.
Proof.
  intros Hm Hn. pose proof (Z.gcd_nonneg m n) as Hg.
  destruct (Z.eq_dec m 0) as [->|Hm0].
  - rewrite Z.gcd_0_l. lia.
  - pose proof (Z.divide_pos_le (Z.gcd m n) m ltac:(lia) (Z.gcd_divide_l m n)).
    lia.
Qed.

Lemma sel_gcd_nonneg (T : int_type) (S : standard) (m n : Z) :
  0 <= m -> 0 <= n -> in_type T m -> in_type T n ->
  sel_gcd T S m n = Done (Z.gcd m n).
Proof.
  intros Hm Hn Tm Tn. destruct S; cbn.
  - apply gcd_nonneg; assumption.
  - unfold std_gcd. f_equal. apply fit_id.
    pose proof (Zgcd_le_max m n Hm Hn). pose proof (Z.gcd_nonneg m n).
    destruct T; cbn in *; unfold int_min, int_max in *; [exact I|lia].
Qed.

Lemma Zgcd_abs_bound (m n b : Z) :
  Z.abs m <= b -> Z.abs n <= b -> Z.gcd m n <= b.
Proof.
  intros Hm Hn.
  pose proof (Zgcd_le_max (Z.abs m) (Z.abs n) ltac:(lia) ltac:(lia)) as H.
  rewrite Z.gcd_abs_l, Z.gcd_abs_r in H. lia.
Qed.

(** In either branch, what [gcd] returns inside the class is, up to its
    sign, the greatest common divisor. *)
Lemma sel_gcd_abs (T : int_type) (S : standard) (m n g : Z) :
  in_type T m -> in_type T n ->
  sel_gcd T S m n = Done g -> Z.abs g = Z.gcd m n.
Proof.
  intros Tm Tn. destruct S; cbn.
  - apply gcd_done_abs.
  - intros H. injection H as <-. unfold std_gcd.
    pose proof (Z.gcd_nonneg m n).
    destruct T; [cbn; lia|].
    rewrite abs_fit; [lia|].
    assert (Z.gcd m n <= 2147483648); [|lia].
    apply Zgcd_abs_bound; apply (in_type_abs_bound Int32); auto.
Qed.

(** * What [normalize_] computes *)

Lemma in_type_small (T : int_type) (z : Z) : Z.abs z <= 1 -> in_type T z.
Proof. intros H. apply safe_in_type, safe_small, H. Qed.

Lemma exact_quot_bound (n g : Z) :
  g <> 0 -> (g | n) -> Z.abs (Z.quot n g) <= Z.abs n.
Proof.
  intros Hg [k ->]. rewrite Z.quot_mul by exact Hg.
  rewrite Z.abs_mul. nia.
Qed.

Lemma sign_factor_abs (d x : Z) :
  Z.abs (x * (if d <? 0 then -1 else 1)) = Z.abs x.
Proof. destruct (d <? 0); lia. Qed.

(** On a raw pair whose two components can be negated in the type, every
    step is exact: this is the normal form of the pair. *)
Lemma normalize_safe (T : int_type) (S : standard) (n d : Z) :
  safe T n -> safe T d -> Z.gcd n d <> 0 ->
  normalize_ T S (mk_fraction n d) =
  Done (mk_fraction (Z.quot n (Z.gcd n d) * (if d <? 0 then -1 else 1))
                    (Z.quot d (Z.gcd n d) * (if d <? 0 then -1 else 1))).
Proof.
  intros Sn Sd Hg. unfold normalize_. cbn [num_ den_].
  rewrite !int_abs_safe by assumption.
  rewrite sel_gcd_nonneg;
    [|lia|lia|apply safe_in_type, safe_abs, Sn|apply safe_in_type, safe_abs, Sd].
  rewrite Z.gcd_abs_l, Z.gcd_abs_r. cbn [bind].
  rewrite int_div_done by (auto using no_overflow_of_safe). cbn [bind].
  rewrite int_div_done by (auto using no_overflow_of_safe). cbn [bind].
  unfold int_mul. rewrite !fit_safe; [reflexivity| |].
  - apply (safe_le T _ d); [|exact Sd]. rewrite sign_factor_abs.
    apply exact_quot_bound; [exact Hg|apply Z.gcd_divide_r].
  - apply (safe_le T _ n); [|exact Sn]. rewrite sign_factor_abs.
    apply exact_quot_bound; [exact Hg|apply Z.gcd_divide_l].
Qed.

(** The pair (0, 0) makes [normalize_] divide by zero, in every
    configuration. *)
Lemma normalize_zero_zero (T : int_type) (S : standard) :
  normalize_ T S (mk_fraction 0 0) = DivByZero.
Proof. destruct T, S; reflexivity. Qed.

Lemma normalize_legal (T : int_type) (S : standard) (n d : Z) :
  safe T n -> safe T d -> d <> 0 ->
  exists f, normalize_ T S (mk_fraction n d) = Done f /\
            canonical f /\ same_value n d f /\
            Z.abs (num f) <= Z.abs n /\ Z.abs (den f) <= Z.abs d.
Proof.
  intros Sn Sd Hd.
  assert (Hg : Z.gcd n d <> 0).
  { intros H. apply Z.gcd_eq_0 in H. lia. }
  rewrite normalize_safe by assumption.
  eexists. split; [reflexivity|].
  pose proof (Z.gcd_nonneg n d) as Hg0.
  pose proof (Z.gcd_quot_gcd n d (Z.gcd n d) Hg eq_refl) as Hco.
  pose proof (exact_quot_bound n _ Hg (Z.gcd_divide_l n d)) as Bn.
  pose proof (exact_quot_bound d _ Hg (Z.gcd_divide_r n d)) as Bd.
  destruct (Z.gcd_divide_l n d) as [n' Hn'].
  destruct (Z.gcd_divide_r n d) as [d' Hd'].
  set (g := Z.gcd n d) in *. clearbody g.
  assert (Hqn : Z.quot n g = n').
  { rewrite Hn' at 1. apply Z.quot_mul. exact Hg. }
  assert (Hqd : Z.quot d g = d').
  { rewrite Hd' at 1. apply Z.quot_mul. exact Hg. }
  rewrite Hqn, Hqd in *.
  unfold canonical, same_value, num, den. cbn [num_ den_].
  rewrite Z.gcd_abs_l, Z.gcd_abs_r, !sign_factor_abs.
  destruct (Z.ltb_spec d 0) as [Hneg|Hpos].
  - repeat split; try assumption.
    + rewrite <- Z.gcd_opp_l, <- Z.gcd_opp_r in Hco.
      replace (n' * -1) with (- n') by lia.
      replace (d' * -1) with (- d') by lia. exact Hco.
    + nia.
    + subst n d. ring.
  - repeat split; try assumption.
    + rewrite !Z.mul_1_r. exact Hco.
    + nia.
    + subst n d. ring.
Qed.

(** A raw pair with a zero denominator and a non-zero numerator: the gcd
    is [|n|], so the numerator collapses to its sign. *)
Lemma normalize_zero_den (T : int_type) (S : standard) (n : Z) :
  safe T n -> n <> 0 ->
  normalize_ T S (mk_fraction n 0) = Done (mk_fraction (Z.sgn n) 0).
Proof.
  intros Sn Hn.
  rewrite normalize_safe;
    [|exact Sn|apply safe_small; cbn; lia|rewrite Z.gcd_0_r; lia].
  rewrite Z.gcd_0_r. cbn [Z.ltb Z.compare].
  rewrite Z.quot_0_l by lia.
  rewrite Z.quot_abs_r by exact Hn.
  rewrite Z.quot_same by exact Hn.
  f_equal. f_equal. lia.
Qed.

(** What can be said of every pair that [normalize_] returns, whatever
    the raw pair. *)
Lemma normalize_done_inv (T : int_type) (S : standard) (n d : Z) (f : fraction) :
  in_type T n -> in_type T d ->
  normalize_ T S (mk_fraction n d) = Done f ->
  exists g, Z.abs g = Z.gcd n d /\ g <> 0 /\
            num f = fit T (Z.quot n g * (if d <? 0 then -1 else 1)) /\
            den f = fit T (Z.quot d g * (if d <? 0 then -1 else 1)).
Proof.
  intros Tn Td. unfold normalize_. cbn [num_ den_].
  destruct (sel_gcd T S (int_abs T n) (int_abs T d)) as [g| |] eqn:Hsel;
    try discriminate.
  cbn [bind].
  destruct (int_div T n g) as [q1| |] eqn:H1; try discriminate. cbn [bind].
  destruct (int_div T d g) as [q2| |] eqn:H2; try discriminate. cbn [bind].
  intros H. injection H as <-.
  apply int_div_inv in H1. destruct H1 as [Hg ->].
  apply int_div_inv in H2. destruct H2 as [_ ->].
  exists g. split; [|split; [exact Hg|split; reflexivity]].
  apply sel_gcd_abs in Hsel; [|apply fit_in_type|apply fit_in_type].
  rewrite Hsel.
  rewrite <- Z.gcd_abs_l, <- Z.gcd_abs_r, !int_abs_abs by assumption.
  rewrite Z.gcd_abs_l, Z.gcd_abs_r. reflexivity.
Qed.

Lemma normalize_in_type (T : int_type) (S : standard) (f g : fraction) :
  normalize_ T S f = Done g -> in_type T (num g) /\ in_type T (den g).
Proof.
  destruct f as [n d]. unfold normalize_. cbn [num_ den_].
  destruct (sel_gcd T S _ _) as [c| |]; try discriminate. cbn [bind].
  destruct (int_div T n c) as [q1| |]; try discriminate. cbn [bind].
  destruct (int_div T d c) as [q2| |]; try discriminate. cbn [bind].
  intros H. injection H as <-. fields. split; apply fit_in_type.
Qed.

Lemma fit_nonzero' (T : int_type) (z : Z) :
  z <> 0 -> (T = Int32 -> Z.abs z <= 2147483648) -> fit T z <> 0.
Proof.
  destruct T; [cbn; auto|]. intros Hz Hb. apply fit_nonzero; auto.
Qed.

(** The denominator that [normalize_] stores is zero only when the raw
    denominator is, and the numerator stored with it is 1 or -1. *)
Lemma normalize_illegal_shape (T : int_type) (S : standard) (n d : Z) (f : fraction) :
  in_type T n -> in_type T d ->
  normalize_ T S (mk_fraction n d) = Done f ->
  den f = 0 ->
  d = 0 /\ (num f = 1 \/ num f = -1).
Proof.
  intros Tn Td Hrun Hden.
  destruct (normalize_done_inv T S n d f Tn Td Hrun) as (g & Hg & Hg0 & Hnum & Hdf).
  assert (Hdiv_d : (g | d)).
  { apply Z.divide_abs_l. rewrite Hg. apply Z.gcd_divide_r. }
  assert (Hd : d = 0).
  { destruct (Z.eq_dec d 0) as [H|H]; [exact H|exfalso].
    rewrite Hdf in Hden. revert Hden. apply fit_nonzero'.
    - destruct Hdiv_d as [k Hk].
      assert (Hk0 : k <> 0) by (intros ->; lia).
      rewrite Hk at 1. rewrite Z.quot_mul by exact Hg0.
      destruct (d <? 0); lia.
    - intros ->. rewrite sign_factor_abs.
      pose proof (exact_quot_bound d g Hg0 Hdiv_d).
      pose proof (in_type_abs_bound Int32 d eq_refl Td). lia. }
  split; [exact Hd|]. subst d.
  rewrite Z.gcd_0_r in Hg. cbn [Z.ltb Z.compare] in Hnum.
  assert (Hq : Z.quot n g = 1 \/ Z.quot n g = -1).
  { assert (Hcase : g = n \/ g = - n) by lia.
    destruct Hcase as [->| ->].
    - left. apply Z.quot_same. exact Hg0.
    - right. rewrite Z.quot_opp_r by lia. rewrite Z.quot_same by lia. reflexivity. }
  rewrite Hnum.
  destruct Hq as [-> | ->]; [left|right];
    apply fit_id, in_type_small; cbn; lia.
Qed.

(** With a zero raw denominator the stored denominator is zero. *)
Lemma normalize_zero_den_stays (T : int_type) (S : standard) (n : Z) (f : fraction) :
  normalize_ T S (mk_fraction n 0) = Done f -> den f = 0.
Proof.
  unfold normalize_. cbn [num_ den_].
  destruct (sel_gcd T S _ _) as [c| |]; try discriminate. cbn [bind].
  destruct (int_div T n c) as [q1| |]; try discriminate. cbn [bind].
  destruct (int_div T 0 c) as [q2| |] eqn:H2; try discriminate. cbn [bind].
  intros H. injection H as <-. fields.
  apply int_div_inv in H2. destruct H2 as [Hc ->].
  rewrite Z.quot_0_l by exact Hc. unfold int_mul. cbn [Z.ltb Z.compare Z.mul].
  apply fit_id, in_type_small. cbn. lia.
Qed.

Lemma legal_iff (f : fraction) : is_legal f = true <-> den f <> 0.
Proof.
  unfold is_legal, den. rewrite negb_true_iff. apply Z.eqb_neq.
Qed.

Lemma illegal_iff (f : fraction) : is_legal f = false <-> den f = 0.
Proof.
  unfold is_legal, den. rewrite negb_false_iff. apply Z.eqb_eq.
Qed.

(** * Canonical pairs are unique representatives *)

Lemma canonical_coprime (f : fraction) :
  canonical f -> Z.gcd (num f) (den f) = 1 /\ 0 < den f.
Proof.
  unfold canonical. rewrite Z.gcd_abs_l, Z.gcd_abs_r. auto.
Qed.

Lemma canonical_unique (a b : fraction) :
  canonical a -> canonical b ->
  num a * den b = num b * den a -> a = b.
Proof.
  intros Ha Hb Hcross.
  apply canonical_coprime in Ha. apply canonical_coprime in Hb.
  destruct a as [n1 d1], b as [n2 d2]. fields.
  destruct Ha as [Ha Hd1], Hb as [Hb Hd2].
  assert (H12 : (d1 | d2)).
  { apply (Z.gauss d1 n1 d2).
    - exists n2. lia.
    - rewrite Z.gcd_comm. exact Ha. }
  assert (H21 : (d2 | d1)).
  { apply (Z.gauss d2 n2 d1).
    - exists n1. lia.
    - rewrite Z.gcd_comm. exact Hb. }
  assert (Hd : d1 = d2).
  { apply Z.divide_antisym_nonneg; auto; lia. }
  subst d2. f_equal. nia.
Qed.

Lemma canonical_zero (f : fraction) :
  canonical f -> num f = 0 -> f = mk_fraction 0 1.
Proof.
  intros Hcan Hnum.
  apply canonical_unique; [exact Hcan| |].
  - split; [reflexivity|]. unfold den. cbn. lia.
  - rewrite Hnum. unfold num, den. cbn. lia.
Qed.

Lemma normalize_of_value (T : int_type) (S : standard) (n d : Z) (f : fraction) :
  safe T n -> safe T d -> d <> 0 -> canonical f -> same_value n d f ->
  normalize_ T S (mk_fraction n d) = Done f.
Proof.
  intros Sn Sd Hd Hcan Hval.
  destruct (normalize_legal T S n d Sn Sd Hd) as (g & Hrun & Hgcan & Hgval & _).
  rewrite Hrun. f_equal. apply canonical_unique; [exact Hgcan|exact Hcan|].
  unfold same_value in *.
  apply (Z.mul_cancel_r _ _ d Hd).
  transitivity (num g * d * den f); [ring|]. rewrite Hgval.
  transitivity (num f * d * den g); [|ring]. rewrite Hval. ring.
Qed.

(** Normalizing a canonical pair leaves it as it is. *)
Lemma normalize_canonical (T : int_type) (S : standard) (f : fraction) :
  canonical f -> safe_fields T f -> normalize_ T S f = Done f.
Proof.
  intros Hcan [Sn Sd]. destruct f as [n d]. fields.
  apply normalize_of_value; try assumption.
  - destruct Hcan as [_ H]. fields. lia.
  - unfold same_value. fields. ring.
Qed.

Lemma normalize_fields (T : int_type) (S : standard) (n d n' d' : Z) :
  n = n' -> d = d' ->
  normalize_ T S (mk_fraction n d) = normalize_ T S (mk_fraction n' d').
Proof. intros -> ->. reflexivity. Qed.

Lemma normalize_zero_num (T : int_type) (S : standard) (d : Z) :
  safe T d -> d <> 0 ->
  normalize_ T S (mk_fraction 0 d) = Done (mk_fraction 0 1).
Proof.
  intros Sd Hd. apply normalize_of_value; try assumption.
  - apply safe_small. cbn. lia.
  - split; fields; [reflexivity|lia].
  - unfold same_value. fields. ring.
Qed.

(** * The one-argument constructor *)

Lemma sel_gcd_one (T : int_type) (S : standard) (a : Z) :
  sel_gcd T S a 1 = Done 1.
Proof.
  destruct S; cbn.
  - rewrite gcd_step. cbn [Z.eqb]. unfold int_rem. cbn [Z.eqb].
    rewrite no_overflow_of_divisor by lia. cbn [bind].
    rewrite Z.rem_1_r, gcd_step. reflexivity.
  - unfold std_gcd. rewrite Z.gcd_1_r. destruct T; reflexivity.
Qed.

(** The one-argument constructor stores [(v, 1)], for every value [v] of
    the type. *)
Lemma fraction_of_int_eq (T : int_type) (S : standard) (v : Z) :
  in_type T v -> fraction_of_int T S v = Done (mk_fraction v 1).
Proof.
  intros Tv. unfold fraction_of_int, fraction_ctor, normalize_. cbn [num_ den_].
  assert (H1 : int_abs T 1 = 1) by (destruct T; reflexivity).
  rewrite H1, sel_gcd_one. cbn [bind].
  rewrite !int_div_done by (try lia; apply no_overflow_of_divisor; lia).
  cbn [bind]. rewrite !Z.quot_1_r. unfold int_mul. cbn [Z.ltb Z.compare].
  rewrite !Z.mul_1_r, (fit_id T v Tv). f_equal. f_equal. destruct T; reflexivity.
Qed.

(** * Every value a program holds came out of [normalize_] *)

Lemma binop_frac_raw (T : int_type) (S : standard) (op : binop) (a b : fraction) :
  apply_binop T S op a (Frac b) =
  normalize_ T S (mk_fraction (fst (spec_raw T op a b)) (snd (spec_raw T op a b))).
Proof. destruct op; reflexivity. Qed.

Lemma binop_int_as_frac (T : int_type) (S : standard) (op : binop)
    (a : fraction) (v : Z) :
  in_type T v ->
  apply_binop T S op a (Int v) = apply_binop T S op a (Frac (mk_fraction v 1)).
Proof.
  intros Tv.
  destruct op; cbn; unfold add_assign_int, sub_assign_int, mul_assign_int,
    div_assign_int; rewrite fraction_of_int_eq by exact Tv; reflexivity.
Qed.

Lemma spec_raw_in_type (T : int_type) (op : binop) (a b : fraction) :
  in_type T (fst (spec_raw T op a b)) /\ in_type T (snd (spec_raw T op a b)).
Proof. destruct op; cbn; split; apply fit_in_type. Qed.

Lemma produced_in_type (T : int_type) (S : standard) (f : fraction) :
  produced T S f -> in_type T (num f) /\ in_type T (den f).
Proof.
  induction 1 as [n d f _ _ H | a t f _ _ _ H | a f _ IH H | a f _ _ H
                 | op a r f _ _ _ _ H | op a v f _ _ Tv H].
  - exact (normalize_in_type T S _ f H).
  - exact (normalize_in_type T S _ f H).
  - injection H as <-. exact IH.
  - exact (normalize_in_type T S _ f H).
  - rewrite binop_frac_raw in H. exact (normalize_in_type T S _ f H).
  - rewrite binop_int_as_frac, binop_frac_raw in H by exact Tv.
    exact (normalize_in_type T S _ f H).
Qed.

Lemma produced_normalized (T : int_type) (S : standard) (f : fraction) :
  produced T S f ->
  exists n d, in_type T n /\ in_type T d /\
              normalize_ T S (mk_fraction n d) = Done f.
Proof.
  induction 1 as [n d f Tn Td H | a t f _ _ Tt H | a f _ IH H | a f Ha _ H
                 | op a r f _ _ _ _ H | op a v f _ _ Tv H].
  - exists n, d. auto.
  - exists t, 1. repeat split; [exact Tt|apply in_type_small; cbn; lia|exact H].
  - injection H as <-. exact IH.
  - exists (int_neg T (num_ a)), (den_ a).
    repeat split; [apply fit_in_type|apply (produced_in_type T S a Ha)|exact H].
  - rewrite binop_frac_raw in H.
    destruct (spec_raw_in_type T op a r) as [T1 T2]. eauto.
  - rewrite binop_int_as_frac, binop_frac_raw in H by exact Tv.
    destruct (spec_raw_in_type T op a (mk_fraction v 1)) as [T1 T2]. eauto.
Qed.

(** The illegal values a program can hold are (1, 0) and (-1, 0). *)
Lemma produced_illegal_shape (T : int_type) (S : standard) (f : fraction) :
  produced T S f -> is_legal f = false ->
  den f = 0 /\ (num f = 1 \/ num f = -1).
Proof.
  intros Hp Hl. apply illegal_iff in Hl.
  destruct (produced_normalized T S f Hp) as (n & d & Tn & Td & Hrun).
  split; [exact Hl|].
  apply (normalize_illegal_shape T S n d f Tn Td Hrun Hl).
Qed.

(** A legal value returned for a raw pair that can be negated is in
    canonical form, with fields no larger than the raw ones. *)
Lemma normalized_legal (T : int_type) (S : standard) (n d : Z) (f : fraction) :
  safe T n -> safe T d ->
  normalize_ T S (mk_fraction n d) = Done f -> is_legal f = true ->
  d <> 0 /\ canonical f /\ same_value n d f /\ safe_fields T f.
Proof.
  intros Sn Sd Hrun Hlegal.
  destruct (Z.eq_dec d 0) as [->|Hd].
  - exfalso. apply legal_iff in Hlegal. apply Hlegal.
    exact (normalize_zero_den_stays T S n f Hrun).
  - destruct (normalize_legal T S n d Sn Sd Hd)
      as (f' & Hrun' & Hcan & Hval & Bn & Bd).
    rewrite Hrun in Hrun'. injection Hrun' as <-.
    repeat split; try assumption; try apply Hcan.
    + exact (safe_le T _ n Bn Sn).
    + exact (safe_le T _ d Bd Sd).
Qed.

(** * Properties of the specification *)

(** ** Invariant of the canonical form *)

(** C1, as stated, on [int]: the constructor applied to the minimum
    integer twice stores the legal pair (-1, -1), whose denominator is
    negative. *)
Lemma int_min_pair_not_canonical :
  fraction_ctor Int32 Cpp14 int_min int_min = Done (mk_fraction (-1) (-1)) /\
  fraction_ctor Int32 Cpp17 int_min int_min = Done (mk_fraction (-1) (-1)) /\
  produced Int32 Cpp14 (mk_fraction (-1) (-1)) /\
  produced Int32 Cpp17 (mk_fraction (-1) (-1)) /\
  is_legal (mk_fraction (-1) (-1)) = true /\
  ~ (Z.gcd (Z.abs (num (mk_fraction (-1) (-1))))
           (Z.abs (den (mk_fraction (-1) (-1)))) = 1 /\
     den (mk_fraction (-1) (-1)) > 0 /\
     (num (mk_fraction (-1) (-1)) = 0 ->
      (num (mk_fraction (-1) (-1)), den (mk_fraction (-1) (-1))) = (0, 1))).
Proof.
  assert (Hmin : in_type Int32 int_min) by (cbn; unfold int_min, int_max; lia).
  repeat split; try reflexivity.
  - apply (produced_ctor Int32 Cpp14 int_min int_min); auto.
  - apply (produced_ctor Int32 Cpp17 int_min int_min); auto.
  - intros (_ & H & _). cbn in H. lia.
Qed.

(** C1 (amended): every value a program can hold is what [normalize_]
    returned for a raw pair of values of the type; and when neither
    component of the raw pair is the minimum integer, a legal value so
    returned is in canonical form: gcd(|num|, |den|) = 1, den > 0, and a
    zero numerator means the pair is exactly (0, 1). *)
Theorem canonical_form_invariant (T : int_type) (S : standard) :
  (forall f, produced T S f ->
     exists n d, in_type T n /\ in_type T d /\
                 normalize_ T S (mk_fraction n d) = Done f) /\
  (forall n d f,
     safe T n -> safe T d ->
     normalize_ T S (mk_fraction n d) = Done f ->
     is_legal f = true ->
     Z.gcd (Z.abs (num f)) (Z.abs (den f)) = 1 /\
     den f > 0 /\
     (num f = 0 -> (num f, den f) = (0, 1))).
Proof.
  split; [apply produced_normalized|].
  intros n d f Sn Sd Hrun Hl.
  destruct (normalized_legal T S n d f Sn Sd Hrun Hl) as (_ & Hcan & _).
  destruct Hcan as [Hgcd Hden]. repeat split.
  - exact Hgcd.
  - lia.
  - intros Hz. rewrite (canonical_zero f (conj Hgcd Hden) Hz). reflexivity.
Qed.

Lemma canonical_form_invariant_witness :
  safe Int32 9 /\ safe Int32 18 /\
  operator_add Int32 Cpp14 (mk_fraction 1 6) (Frac (mk_fraction 1 3))
  = normalize_ Int32 Cpp14 (mk_fraction 9 18) /\
  normalize_ Int32 Cpp14 (mk_fraction 9 18) = Done (mk_fraction 1 2) /\
  is_legal (mk_fraction 1 2) = true /\
  Z.gcd (Z.abs (num (mk_fraction 1 2))) (Z.abs (den (mk_fraction 1 2))) = 1 /\
  den (mk_fraction 1 2) > 0 /\
  (num (mk_fraction 1 2) = 0 ->
   (num (mk_fraction 1 2), den (mk_fraction 1 2)) = (0, 1)).
Proof.
  assert (S9 : safe Int32 9) by (cbn; unfold int_max; lia).
  assert (S18 : safe Int32 18) by (cbn; unfold int_max; lia).
  split; [exact S9|]. split; [exact S18|].
  split; [reflexivity|]. split; [reflexivity|]. split; [reflexivity|].
  exact (proj2 (canonical_form_invariant Int32 Cpp14) 9 18 (mk_fraction 1 2)
           S9 S18 eq_refl eq_refl).
Defined.

(** ** The binary operations *)

Lemma spec_normalize_nonzero (n d : Z) :
  d <> 0 ->
  spec_normalize (n, d) =
  mk_fraction (Z.quot n (Z.gcd n d) * (if d <? 0 then -1 else 1))
              (Z.quot d (Z.gcd n d) * (if d <? 0 then -1 else 1)).
Proof.
  intros Hd. unfold spec_normalize. cbn [fst snd].
  rewrite (proj2 (Z.eqb_neq d 0) Hd), Z.gcd_abs_l, Z.gcd_abs_r. reflexivity.
Qed.

(** C2, as stated, with the normal form of section 4.1: (3, 4) / (0, 1)
    has the raw pair (3, 0), which section 4.1 leaves as it is (the
    numerator keeps its magnitude), while the operator returns (1, 0). *)
Lemma division_result_not_spec_normal_form :
  spec_raw Int32 Div (mk_fraction 3 4) (mk_fraction 0 1) = (3, 0) /\
  spec_normalize (3, 0) = mk_fraction 3 0 /\
  operator_div Int32 Cpp14 (mk_fraction 3 4) (Frac (mk_fraction 0 1))
  = Done (mk_fraction 1 0) /\
  operator_div Int32 Cpp17 (mk_fraction 3 4) (Frac (mk_fraction 0 1))
  = Done (mk_fraction 1 0) /\
  operator_div Int32 Cpp14 (mk_fraction 3 4) (Frac (mk_fraction 0 1))
  <> Done (spec_normalize
             (spec_raw Int32 Div (mk_fraction 3 4) (mk_fraction 0 1))) /\
  operator_div Int32 Cpp17 (mk_fraction 3 4) (Frac (mk_fraction 0 1))
  <> Done (spec_normalize
             (spec_raw Int32 Div (mk_fraction 3 4) (mk_fraction 0 1))).
Proof. repeat split; try reflexivity; discriminate. Qed.

(** C2 (amended): each binary operation builds, with the arithmetic of the
    type, the raw pair of the table ((n1*d2 + d1*n2, d1*d2) for +,
    (n1*d2 - d1*n2, d1*d2) for -, (n1*n2, d1*d2) for * and (n1*d2, d1*n2)
    for /) and normalizes it.  When neither component of the raw pair is
    the minimum integer, the result is the normal form of section 4.1 if
    the raw denominator is not zero, and (sign(n), 0) if it is zero and
    the raw numerator n is not.  A bare integer v on the right is first
    lifted to (v, 1). *)
Theorem binary_operations_raw_then_normalize
    (T : int_type) (S : standard) (op : binop) (a b : fraction) (v : Z) :
  (forall n d,
     spec_raw T op a b = (n, d) -> safe T n -> safe T d -> d <> 0 ->
     apply_binop T S op a (Frac b) = Done (spec_normalize (n, d))) /\
  (forall n,
     spec_raw T op a b = (n, 0) -> safe T n -> n <> 0 ->
     apply_binop T S op a (Frac b) = Done (mk_fraction (Z.sgn n) 0)) /\
  (in_type T v ->
     apply_binop T S op a (Int v) = apply_binop T S op a (Frac (spec_lift v)) /\
     fraction_of_int T S v = Done (spec_lift v)).
Proof.
  split; [|split].
  - intros n d Hraw Sn Sd Hd.
    rewrite binop_frac_raw, Hraw. cbn [fst snd].
    rewrite spec_normalize_nonzero by exact Hd.
    apply normalize_safe; try assumption.
    intros H. apply Z.gcd_eq_0 in H. lia.
  - intros n Hraw Sn Hn.
    rewrite binop_frac_raw, Hraw. cbn [fst snd].
    apply normalize_zero_den; assumption.
  - intros Tv. split.
    + apply binop_int_as_frac. exact Tv.
    + apply fraction_of_int_eq. exact Tv.
Qed.

Lemma binary_operations_raw_then_normalize_witness :
  spec_raw Int32 Sub (mk_fraction 1 6) (mk_fraction 2 3) = (-9, 18) /\
  safe Int32 (-9) /\ safe Int32 18 /\ 18 <> 0 /\
  spec_normalize (-9, 18) = mk_fraction (-1) 2 /\
  apply_binop Int32 Cpp14 Sub (mk_fraction 1 6) (Frac (mk_fraction 2 3))
  = Done (spec_normalize (-9, 18)).
Proof.
  assert (S9 : safe Int32 (-9)) by (cbn; unfold int_max; lia).
  assert (S18 : safe Int32 18) by (cbn; unfold int_max; lia).
  assert (H18 : 18 <> 0) by lia.
  split; [reflexivity|]. split; [exact S9|]. split; [exact S18|].
  split; [exact H18|]. split; [reflexivity|].
  exact (proj1 (binary_operations_raw_then_normalize Int32 Cpp14 Sub
                  (mk_fraction 1 6) (mk_fraction 2 3) 0)
           (-9) 18 eq_refl S9 S18 H18).
Defined.

(** ** The pair constructor *)

(** C3, as stated, on [int]: constructed from the minimum integer twice,
    the value is (-1, -1), which is not the canonical representative
    (1, 1) of that fraction. *)
Lemma constructor_int_min_pair_not_representative :
  int_min <> 0 /\
  canonical (mk_fraction 1 1) /\
  same_value int_min int_min (mk_fraction 1 1) /\
  fraction_ctor Int32 Cpp14 int_min int_min = Done (mk_fraction (-1) (-1)) /\
  fraction_ctor Int32 Cpp17 int_min int_min = Done (mk_fraction (-1) (-1)) /\
  ~ (exists f, fraction_ctor Int32 Cpp14 int_min int_min = Done f /\ 0 < den f) /\
  ~ (exists f, fraction_ctor Int32 Cpp17 int_min int_min = Done f /\ 0 < den f).
Proof.
  repeat split; try reflexivity; try discriminate.
  - intros (f & H & Hd).
    assert (E : fraction_ctor Int32 Cpp14 int_min int_min
                = Done (mk_fraction (-1) (-1))) by reflexivity.
    rewrite E in H. injection H as <-. cbn in Hd. lia.
  - intros (f & H & Hd).
    assert (E : fraction_ctor Int32 Cpp17 int_min int_min
                = Done (mk_fraction (-1) (-1))) by reflexivity.
    rewrite E in H. injection H as <-. cbn in Hd. lia.
Qed.

(** C3 (amended): for d <> 0, with neither n nor d the minimum integer,
    the constructor applied to (n, d) returns the unique canonical
    representative of n/d: same rational value, lowest terms, positive
    denominator.  It sends (15, 63) to (5, 21) and (4, -6) to (-2, 3). *)
Theorem pair_constructor_canonical_representative
    (T : int_type) (S : standard) (n d : Z) :
  safe T n -> safe T d -> d <> 0 ->
  (exists f,
      fraction_ctor T S n d = Done f /\
      same_value n d f /\
      Z.gcd (Z.abs (num f)) (Z.abs (den f)) = 1 /\
      0 < den f /\
      (forall g, canonical g -> same_value n d g -> g = f)) /\
  fraction_ctor T S 15 63 = Done (mk_fraction 5 21) /\
  fraction_ctor T S 4 (-6) = Done (mk_fraction (-2) 3).
Proof.
  intros Sn Sd Hd. split; [|destruct T, S; split; reflexivity].
  destruct (normalize_legal T S n d Sn Sd Hd) as (f & Hrun & Hcan & Hval & _).
  exists f. split; [exact Hrun|]. split; [exact Hval|].
  destruct Hcan as [Hgcd Hden]. split; [exact Hgcd|]. split; [exact Hden|].
  intros g Hg Hgval. apply canonical_unique; [exact Hg|split; assumption|].
  unfold same_value in *.
  apply (Z.mul_cancel_r _ _ d Hd).
  transitivity (num g * d * den f); [ring|]. rewrite Hgval.
  transitivity (num f * d * den g); [|ring]. rewrite Hval. ring.
Qed.

Lemma pair_constructor_canonical_representative_witness :
  safe Int32 4 /\ safe Int32 (-6) /\ (-6) <> 0 /\
  (exists f,
      fraction_ctor Int32 Cpp17 4 (-6) = Done f /\
      same_value 4 (-6) f /\
      Z.gcd (Z.abs (num f)) (Z.abs (den f)) = 1 /\
      0 < den f /\
      (forall g, canonical g -> same_value 4 (-6) g -> g = f)) /\
  fraction_ctor Int32 Cpp17 15 63 = Done (mk_fraction 5 21) /\
  fraction_ctor Int32 Cpp17 4 (-6) = Done (mk_fraction (-2) 3).
Proof.
  assert (S4 : safe Int32 4) by (cbn; unfold int_max; lia).
  assert (S6 : safe Int32 (-6)) by (cbn; unfold int_max; lia).
  split; [exact S4|]. split; [exact S6|]. split; [lia|].
  apply (pair_constructor_canonical_representative Int32 Cpp17 4 (-6) S4 S6). lia.
Defined.

(** ** Zero denominators *)

(** C4, as stated, at the pair (6, 0): the numerator does not keep its
    magnitude; [normalize_] returns (1, 0). *)
Lemma normalize_zero_den_loses_magnitude :
  normalize_ Int32 Cpp14 (mk_fraction 6 0) = Done (mk_fraction 1 0) /\
  normalize_ Int32 Cpp17 (mk_fraction 6 0) = Done (mk_fraction 1 0) /\
  ~ (exists f, normalize_ Int32 Cpp14 (mk_fraction 6 0) = Done f /\
               den f = 0 /\ num f = 6 /\ is_legal f = false) /\
  ~ (exists f, normalize_ Int32 Cpp17 (mk_fraction 6 0) = Done f /\
               den f = 0 /\ num f = 6 /\ is_legal f = false).
Proof.
  repeat split; try reflexivity.
  - intros (f & Hrun & _ & Hnum & _).
    assert (H : normalize_ Int32 Cpp14 (mk_fraction 6 0) = Done (mk_fraction 1 0))
      by reflexivity.
    rewrite H in Hrun. injection Hrun as <-. discriminate Hnum.
  - intros (f & Hrun & _ & Hnum & _).
    assert (H : normalize_ Int32 Cpp17 (mk_fraction 6 0) = Done (mk_fraction 1 0))
      by reflexivity.
    rewrite H in Hrun. injection Hrun as <-. discriminate Hnum.
Qed.

(** C4 (amended): for a pair (n, 0) with n <> 0, after normalization the
    denominator is still 0, the numerator is reduced to magnitude 1, and
    the legality predicate reports the value illegal; the numerator keeps
    the sign of n (it is sign(n)) when n is not the minimum integer. *)
Theorem normalize_zero_den_keeps_sign (T : int_type) (S : standard) (n : Z) :
  in_type T n -> n <> 0 ->
  exists f, normalize_ T S (mk_fraction n 0) = Done f /\
            den f = 0 /\
            Z.abs (num f) = 1 /\
            is_legal f = false /\
            (safe T n -> num f = Z.sgn n).
Proof.
  intros Tn Hn. destruct (in_type_cases T n Tn) as [Sn|[-> ->]].
  - exists (mk_fraction (Z.sgn n) 0).
    split; [apply normalize_zero_den; assumption|].
    fields. repeat split. lia.
  - exists (mk_fraction 1 0).
    split; [destruct S; reflexivity|].
    fields. repeat split. cbn. unfold int_min, int_max. lia.
Qed.

Lemma normalize_zero_den_keeps_sign_witness :
  in_type Int32 (-6) /\ (-6) <> 0 /\
  exists f, normalize_ Int32 Cpp14 (mk_fraction (-6) 0) = Done f /\
            den f = 0 /\
            Z.abs (num f) = 1 /\
            is_legal f = false /\
            (safe Int32 (-6) -> num f = Z.sgn (-6)).
Proof.
  assert (T6 : in_type Int32 (-6)) by (cbn; unfold int_min, int_max; lia).
  split; [exact T6|]. split; [lia|].
  apply (normalize_zero_den_keeps_sign Int32 Cpp14 (-6) T6). lia.
Defined.

(** C5 at the pair (0, 0): the gcd is 0 and the first assignment of
    [normalize_], [num_ / g], divides by it, whatever the integer type and
    the gcd in use. *)
Theorem normalize_zero_zero_divides_by_zero (T : int_type) (S : standard) :
  sel_gcd T S (int_abs T 0) (int_abs T 0) = Done 0 /\
  int_div T 0 0 = DivByZero /\
  normalize_ T S (mk_fraction 0 0) = DivByZero /\
  fraction_ctor T S 0 0 = DivByZero.
Proof. destruct T, S; repeat split. Qed.

(** C6 at a = (0, 1), b = (0, 1): the raw quotient is (0, 0), on which
    normalization divides by zero, so the division yields no value at
    all, legal or not. *)
Theorem zero_divided_by_zero_divides_by_zero (T : int_type) (S : standard) :
  fraction_ctor T S 0 1 = Done (mk_fraction 0 1) /\
  spec_raw T Div (mk_fraction 0 1) (mk_fraction 0 1) = (0, 0) /\
  operator_div T S (mk_fraction 0 1) (Frac (mk_fraction 0 1)) = DivByZero /\
  operator_div T S (mk_fraction 0 1) (Int 0) = DivByZero /\
  operator_div T S (mk_fraction 3 4) (Frac (mk_fraction 0 1))
  = Done (mk_fraction 1 0) /\
  is_legal (mk_fraction 1 0) = false.
Proof. destruct T, S; repeat split. Qed.

(** The part of C6 that the code does meet: when the product n1 * d2 is
    not zero and can be negated in the type, dividing by a fraction whose
    numerator is zero gives an illegal value. *)
Lemma div_by_zero_numerator (T : int_type) (S : standard) (a b : fraction) :
  num b = 0 -> safe T (num a * den b) -> num a * den b <> 0 ->
  exists f, operator_div T S a (Frac b) = Done f /\
            den f = 0 /\ is_legal f = false.
Proof.
  intros Hz Sp Hp.
  unfold operator_div, div_assign, normalize_2, int_mul. fields.
  rewrite Hz, Z.mul_0_r.
  rewrite (fit_safe T _ Sp).
  assert (H0 : fit T 0 = 0) by (destruct T; reflexivity).
  rewrite H0, normalize_zero_den by assumption.
  eexists. split; [reflexivity|]. split; reflexivity.
Qed.

(** ** Ordering *)

Lemma operator_eq_iff (a b : fraction) :
  operator_eq a b = true <-> num a = num b /\ den a = den b.
Proof.
  unfold operator_eq. rewrite andb_true_iff, !Z.eqb_eq. reflexivity.
Qed.

Lemma operator_lt_iff (T : int_type) (a b : fraction) :
  in_type T (num a * den b) -> in_type T (num b * den a) ->
  operator_lt T a b = true <-> num a * den b < num b * den a.
Proof.
  intros H1 H2. unfold operator_lt, int_mul. rewrite !fit_id by assumption.
  apply Z.ltb_lt.
Qed.

Lemma operator_gt_iff (T : int_type) (a b : fraction) :
  in_type T (num a * den b) -> in_type T (num b * den a) ->
  operator_gt T a b = true <-> num a * den b > num b * den a.
Proof.
  intros H1 H2. unfold operator_gt, int_mul. rewrite !fit_id by assumption.
  rewrite Z.gtb_ltb, Z.ltb_lt. lia.
Qed.

Lemma false_of_not_true (b : bool) : b <> true -> b = false.
Proof. destruct b; congruence. Qed.

(** C7, as stated, on [int]: (65536, 1) and (65536, 65537) are legal
    values in canonical form, and none of <, ==, > holds between them:
    the two cross products are equal after wrapping around. *)
Lemma wrapped_cross_products_break_trichotomy :
  produced Int32 Cpp14 (mk_fraction 65536 1) /\
  produced Int32 Cpp17 (mk_fraction 65536 1) /\
  is_legal (mk_fraction 65536 1) = true /\
  produced Int32 Cpp14 (mk_fraction 65536 65537) /\
  produced Int32 Cpp17 (mk_fraction 65536 65537) /\
  is_legal (mk_fraction 65536 65537) = true /\
  operator_lt Int32 (mk_fraction 65536 1) (mk_fraction 65536 65537) = false /\
  operator_eq (mk_fraction 65536 1) (mk_fraction 65536 65537) = false /\
  operator_gt Int32 (mk_fraction 65536 1) (mk_fraction 65536 65537) = false.
Proof.
  assert (T1 : in_type Int32 65536) by (cbn; unfold int_min, int_max; lia).
  assert (T2 : in_type Int32 1) by (cbn; unfold int_min, int_max; lia).
  assert (T3 : in_type Int32 65537) by (cbn; unfold int_min, int_max; lia).
  repeat split; try reflexivity.
  - apply (produced_ctor Int32 Cpp14 65536 1); auto.
  - apply (produced_ctor Int32 Cpp17 65536 1); auto.
  - apply (produced_ctor Int32 Cpp14 65536 65537); auto.
  - apply (produced_ctor Int32 Cpp17 65536 65537); auto.
Qed.

(** C7 (amended): for two legal values a = (n1, d1) and b = (n2, d2) in
    canonical form whose cross products n1*d2 and n2*d1 are values of the
    type, exactly one of a < b, a == b, a > b holds, where a < b is
    n1*d2 < n2*d1 and equality compares the pairs field by field. *)
Theorem order_trichotomy (T : int_type) (a b : fraction) :
  canonical a -> canonical b ->
  in_type T (num a * den b) -> in_type T (num b * den a) ->
  (operator_lt T a b = true <-> num a * den b < num b * den a) /\
  (operator_eq a b = true <-> num a = num b /\ den a = den b) /\
  ((operator_lt T a b = true /\ operator_eq a b = false /\
    operator_gt T a b = false) \/
   (operator_lt T a b = false /\ operator_eq a b = true /\
    operator_gt T a b = false) \/
   (operator_lt T a b = false /\ operator_eq a b = false /\
    operator_gt T a b = true)).
Proof.
  intros Ha Hb T1 T2.
  pose proof (operator_lt_iff T a b T1 T2) as Hlt_iff.
  pose proof (operator_gt_iff T a b T1 T2) as Hgt_iff.
  split; [exact Hlt_iff|]. split; [apply operator_eq_iff|].
  destruct (Z.lt_total (num a * den b) (num b * den a)) as [Hlt|[Heq|Hgt]].
  - left. split; [apply Hlt_iff; exact Hlt|].
    split; apply false_of_not_true.
    + rewrite operator_eq_iff. intros [Hn Hd]. rewrite Hn, Hd in Hlt. lia.
    + rewrite Hgt_iff. lia.
  - right. left.
    pose proof (canonical_unique a b Ha Hb Heq) as E.
    split; [|split].
    + apply false_of_not_true. rewrite Hlt_iff. lia.
    + apply operator_eq_iff. rewrite E. auto.
    + apply false_of_not_true. rewrite Hgt_iff. lia.
  - right. right. split; [|split].
    + apply false_of_not_true. rewrite Hlt_iff. lia.
    + apply false_of_not_true.
      rewrite operator_eq_iff. intros [Hn Hd]. rewrite Hn, Hd in Hgt. lia.
    + apply Hgt_iff. lia.
Qed.

Lemma order_trichotomy_witness :
  canonical (mk_fraction 1 3) /\ canonical (mk_fraction 1 2) /\
  in_type Int32 (num (mk_fraction 1 3) * den (mk_fraction 1 2)) /\
  in_type Int32 (num (mk_fraction 1 2) * den (mk_fraction 1 3)) /\
  operator_lt Int32 (mk_fraction 1 3) (mk_fraction 1 2) = true /\
  operator_eq (mk_fraction 1 3) (mk_fraction 1 2) = false /\
  operator_gt Int32 (mk_fraction 1 3) (mk_fraction 1 2) = false.
Proof.
  assert (Ca : canonical (mk_fraction 1 3)) by (split; cbn; [reflexivity|lia]).
  assert (Cb : canonical (mk_fraction 1 2)) by (split; cbn; [reflexivity|lia]).
  assert (T1 : in_type Int32 (num (mk_fraction 1 3) * den (mk_fraction 1 2)))
    by (cbn; unfold int_min, int_max; lia).
  assert (T2 : in_type Int32 (num (mk_fraction 1 2) * den (mk_fraction 1 3)))
    by (cbn; unfold int_min, int_max; lia).
  pose proof (order_trichotomy Int32 _ _ Ca Cb T1 T2) as H.
  split; [exact Ca|]. split; [exact Cb|].
  split; [exact T1|]. split; [exact T2|].
  destruct H as (_ & _ & [H|[(H & _)|(H & _)]]).
  - exact H.
  - discriminate H.
  - discriminate H.
Defined.

(** ** Division and multiplication are inverse *)

(** C8, as stated, on [int]: for a = (1, 65536) and b = (65536, 1) the
    raw denominator of a / b is 65536 * 65536, stored as 0, so a / b is
    the illegal (1, 0) and (a / b) * b is (1, 0), not a. *)
Lemma wrapped_denominator_breaks_inverse :
  produced Int32 Cpp14 (mk_fraction 1 65536) /\
  produced Int32 Cpp17 (mk_fraction 1 65536) /\
  is_legal (mk_fraction 1 65536) = true /\
  produced Int32 Cpp14 (mk_fraction 65536 1) /\
  produced Int32 Cpp17 (mk_fraction 65536 1) /\
  is_legal (mk_fraction 65536 1) = true /\
  num (mk_fraction 65536 1) <> 0 /\
  operator_div Int32 Cpp14 (mk_fraction 1 65536) (Frac (mk_fraction 65536 1))
  = Done (mk_fraction 1 0) /\
  operator_div Int32 Cpp17 (mk_fraction 1 65536) (Frac (mk_fraction 65536 1))
  = Done (mk_fraction 1 0) /\
  operator_mul Int32 Cpp14 (mk_fraction 1 0) (Frac (mk_fraction 65536 1))
  = Done (mk_fraction 1 0) /\
  operator_mul Int32 Cpp17 (mk_fraction 1 0) (Frac (mk_fraction 65536 1))
  = Done (mk_fraction 1 0) /\
  operator_eq (mk_fraction 1 0) (mk_fraction 1 65536) = false.
Proof.
  assert (T1 : in_type Int32 65536) by (cbn; unfold int_min, int_max; lia).
  assert (T2 : in_type Int32 1) by (cbn; unfold int_min, int_max; lia).
  repeat split; try reflexivity; try discriminate.
  - apply (produced_ctor Int32 Cpp14 1 65536); auto.
  - apply (produced_ctor Int32 Cpp17 1 65536); auto.
  - apply (produced_ctor Int32 Cpp14 65536 1); auto.
  - apply (produced_ctor Int32 Cpp17 65536 1); auto.
Qed.

Lemma abs_mul_ge_l (x y : Z) : y <> 0 -> Z.abs x <= Z.abs (x * y).
Proof. intros Hy. rewrite Z.abs_mul. nia. Qed.

Lemma abs_mul_le_mono (x x' y : Z) :
  Z.abs x <= Z.abs x' -> Z.abs (x * y) <= Z.abs (x' * y).
Proof. intros H. rewrite !Z.abs_mul. nia. Qed.

(** C8 (amended): for legal a = (n1, d1) and b = (n2, d2) in canonical
    form with n2 <> 0, when the products n1*d2*n2 and d1*n2*d2 can be
    negated in the type (so that no product of the two operations
    overflows), (a / b) * b == a. *)
Theorem div_then_mul_inverse (T : int_type) (S : standard) (a b : fraction) :
  canonical a -> canonical b ->
  num b <> 0 ->
  safe T (num a * den b * num b) -> safe T (den a * num b * den b) ->
  exists q r,
    operator_div T S a (Frac b) = Done q /\
    operator_mul T S q (Frac b) = Done r /\
    operator_eq r a = true.
Proof.
  intros Ha Hb Hnb S1 S2.
  assert (Hda : 0 < den a) by apply Ha.
  assert (Hdb : 0 < den b) by apply Hb.
  assert (Sn : safe T (num a * den b)).
  { apply (safe_le T _ _ (abs_mul_ge_l _ (num b) Hnb) S1). }
  assert (Sd : safe T (den a * num b)).
  { apply (safe_le T _ _ (abs_mul_ge_l _ (den b) ltac:(lia)) S2). }
  destruct (normalize_legal T S (num a * den b) (den a * num b) Sn Sd)
    as (q & Hq & Hqcan & Hqval & Bqn & Bqd); [apply Z.neq_mul_0; split; lia|].
  assert (Hdq : 0 < den q) by apply Hqcan.
  assert (Sn2 : safe T (num q * num b)).
  { apply (safe_le T _ _ (abs_mul_le_mono _ _ (num b) Bqn) S1). }
  assert (Sd2 : safe T (den q * den b)).
  { apply (safe_le T _ _ (abs_mul_le_mono _ _ (den b) Bqd) S2). }
  destruct (normalize_legal T S (num q * num b) (den q * den b) Sn2 Sd2)
    as (r & Hr & Hrcan & Hrval & _); [apply Z.neq_mul_0; split; lia|].
  exists q, r. split; [|split].
  - unfold operator_div, div_assign, normalize_2, int_mul. fields.
    rewrite !fit_safe by assumption. exact Hq.
  - unfold operator_mul, mul_assign, normalize_2, int_mul. fields.
    rewrite !fit_safe by assumption. exact Hr.
  - rewrite (canonical_unique r a Hrcan Ha).
    + apply operator_eq_iff. auto.
    + unfold same_value in *.
      apply (Z.mul_cancel_r _ _ (num b * (den q * den b)));
        [apply Z.neq_mul_0; split; [exact Hnb|apply Z.neq_mul_0; split; lia]|].
      transitivity (num r * (den q * den b) * (den a * num b)); [ring|].
      rewrite Hrval.
      transitivity (num q * (den a * num b) * (num b * den r)); [ring|].
      rewrite Hqval. ring.
Qed.

Lemma div_then_mul_inverse_witness :
  canonical (mk_fraction 3 4) /\ canonical (mk_fraction (-5) 6) /\
  num (mk_fraction (-5) 6) <> 0 /\
  safe Int32 (num (mk_fraction 3 4) * den (mk_fraction (-5) 6)
              * num (mk_fraction (-5) 6)) /\
  safe Int32 (den (mk_fraction 3 4) * num (mk_fraction (-5) 6)
              * den (mk_fraction (-5) 6)) /\
  exists q r,
    operator_div Int32 Cpp14 (mk_fraction 3 4) (Frac (mk_fraction (-5) 6)) = Done q /\
    operator_mul Int32 Cpp14 q (Frac (mk_fraction (-5) 6)) = Done r /\
    operator_eq r (mk_fraction 3 4) = true.
Proof.
  assert (Ca : canonical (mk_fraction 3 4)) by (split; cbn; [reflexivity|lia]).
  assert (Cb : canonical (mk_fraction (-5) 6)) by (split; cbn; [reflexivity|lia]).
  assert (Hn : num (mk_fraction (-5) 6) <> 0) by (cbn; lia).
  assert (S1 : safe Int32 (num (mk_fraction 3 4) * den (mk_fraction (-5) 6)
                           * num (mk_fraction (-5) 6)))
    by (cbn; unfold int_max; lia).
  assert (S2 : safe Int32 (den (mk_fraction 3 4) * num (mk_fraction (-5) 6)
                           * den (mk_fraction (-5) 6)))
    by (cbn; unfold int_max; lia).
  split; [exact Ca|]. split; [exact Cb|]. split; [exact Hn|].
  split; [exact S1|]. split; [exact S2|].
  exact (div_then_mul_inverse Int32 Cpp14 _ _ Ca Cb Hn S1 S2).
Defined.

(** ** Truthiness *)

(** C9: [operator!] is true exactly when num <> 0 and the explicit
    conversion to bool is true exactly when num == 0, so each is the
    negation of the other. *)
Theorem truthiness_polarities (f : fraction) :
  (operator_not f = true <-> num f <> 0) /\
  (operator_bool f = true <-> num f = 0) /\
  operator_not f = negb (operator_bool f).
Proof.
  unfold operator_not, operator_bool, num. repeat split.
  - intros H. apply negb_true_iff in H. apply Z.eqb_neq. exact H.
  - intros H. apply negb_true_iff. apply Z.eqb_neq. exact H.
  - apply Z.eqb_eq.
  - apply Z.eqb_eq.
Qed.

(** ** Legality is closed under addition, subtraction and multiplication *)

Lemma normalize_keeps_nonzero_den (S : standard) (n d : Z) :
  d <> 0 ->
  exists f, normalize_ Unbounded S (mk_fraction n d) = Done f /\
            is_legal f = true.
Proof.
  intros Hd.
  destruct (normalize_legal Unbounded S n d I I Hd) as (f & Hrun & Hcan & _).
  exists f. split; [exact Hrun|]. apply legal_iff. destruct Hcan. lia.
Qed.

Lemma binop_legal (S : standard) (op : binop) (a b : fraction) :
  is_legal a = true -> is_legal b = true -> op <> Div ->
  snd (spec_raw Unbounded op a b) = den a * den b /\
  den a * den b <> 0 /\
  exists c, apply_binop Unbounded S op a (Frac b) = Done c /\ is_legal c = true.
Proof.
  intros Ha Hb Hop. apply legal_iff in Ha. apply legal_iff in Hb.
  assert (Hprod : den a * den b <> 0) by (apply Z.neq_mul_0; auto).
  split; [destruct op; try reflexivity; congruence|].
  split; [exact Hprod|].
  rewrite binop_frac_raw.
  destruct op; try congruence; cbn [spec_raw fst snd int_mul fit];
    apply normalize_keeps_nonzero_den; exact Hprod.
Qed.

(** C10: with exact integers, the sum, difference and product of two
    legal values are legal: the denominator before normalization is the
    non-zero product d1*d2, and normalization keeps a non-zero denominator
    non-zero.  Of the four binary operations only division takes legal
    operands to an illegal value. *)
Theorem only_division_leaves_legal_values (S : standard) (a b : fraction) (v : Z) :
  is_legal a = true -> is_legal b = true ->
  (forall op, op <> Div ->
     snd (spec_raw Unbounded op a b) = den a * den b /\
     den a * den b <> 0 /\
     (exists c, apply_binop Unbounded S op a (Frac b) = Done c /\
                is_legal c = true) /\
     (exists c, apply_binop Unbounded S op a (Int v) = Done c /\
                is_legal c = true)) /\
  (forall n d, d <> 0 ->
     exists f, normalize_ Unbounded S (mk_fraction n d) = Done f /\ den f <> 0) /\
  (exists x y z,
     produced Unbounded S x /\ is_legal x = true /\
     produced Unbounded S y /\ is_legal y = true /\
     operator_div Unbounded S x (Frac y) = Done z /\ is_legal z = false).
Proof.
  intros Ha Hb. split; [|split].
  - intros op Hop.
    destruct (binop_legal S op a b Ha Hb Hop) as (Hraw & Hprod & Hc).
    split; [exact Hraw|]. split; [exact Hprod|]. split; [exact Hc|].
    rewrite binop_int_as_frac by exact I.
    apply (binop_legal S op a (mk_fraction v 1) Ha eq_refl Hop).
  - intros n d Hd.
    destruct (normalize_keeps_nonzero_den S n d Hd) as (f & Hrun & Hl).
    exists f. split; [exact Hrun|]. apply legal_iff. exact Hl.
  - exists (mk_fraction 3 4), (mk_fraction 0 1), (mk_fraction 1 0).
    split; [apply (produced_ctor Unbounded S 3 4); [exact I|exact I|];
            destruct S; reflexivity|].
    split; [reflexivity|].
    split; [apply (produced_ctor Unbounded S 0 1); [exact I|exact I|];
            destruct S; reflexivity|].
    split; [reflexivity|].
    split; [destruct S; reflexivity|reflexivity].
Qed.

Lemma only_division_leaves_legal_values_witness :
  is_legal (mk_fraction 5 21) = true /\ is_legal (mk_fraction 1 2) = true /\
  (exists c, operator_add Unbounded Cpp14 (mk_fraction 5 21)
               (Frac (mk_fraction 1 2)) = Done c /\
             is_legal c = true) /\
  (exists c, operator_mul Unbounded Cpp14 (mk_fraction 5 21) (Int 4) = Done c /\
             is_legal c = true).
Proof.
  split; [reflexivity|]. split; [reflexivity|].
  destruct (only_division_leaves_legal_values Cpp14
              (mk_fraction 5 21) (mk_fraction 1 2) 4 eq_refl eq_refl)
    as (Hops & _ & _).
  split.
  - apply (Hops Add). discriminate.
  - apply (Hops Mul). discriminate.
Defined.

(** * Further properties of the code *)

(** ** The gcd helper *)

Lemma gcd_returns (T : int_type) (n : Z) :
  forall m,
    in_type T m -> in_type T n ->
    ~ (T = Int32 /\ ((m = int_min /\ n = -1) \/ (m = -1 /\ n = int_min))) ->
    exists g, gcd T m n = Done g.
Proof.
  assert (H : forall k, 0 <= k -> forall n m, Z.abs n = k ->
              in_type T m -> in_type T n ->
              ~ (T = Int32 /\
                 ((m = int_min /\ n = -1) \/ (m = -1 /\ n = int_min))) ->
              exists g, gcd T m n = Done g).
  { apply (Zlt_0_ind (fun k => forall n m, Z.abs n = k ->
              in_type T m -> in_type T n ->
              ~ (T = Int32 /\
                 ((m = int_min /\ n = -1) \/ (m = -1 /\ n = int_min))) ->
              exists g, gcd T m n = Done g)).
    intros k IH Hk n' m Hn' Tm Tn Hgood.
    rewrite gcd_step.
    destruct (Z.eqb_spec n' 0) as [->|Hn0]; [eauto|].
    unfold int_rem. rewrite (proj2 (Z.eqb_neq n' 0) Hn0).
    assert (Ho : quot_overflows T m n' = false).
    { destruct T; [reflexivity|]. cbn.
      destruct (Z.eqb_spec m int_min) as [Hm|Hm]; [|reflexivity].
      destruct (Z.eqb_spec n' (-1)) as [Hn1|Hn1]; [|reflexivity].
      exfalso. apply Hgood. auto. }
    rewrite Ho. cbn [bind].
    pose proof (Z.rem_bound_abs m n' Hn0) as Hr.
    apply (IH (Z.abs (Z.rem m n')) ltac:(lia) _ _ eq_refl).
    - exact Tn.
    - destruct T; [exact I|]. unfold in_type, int_min, int_max in *.
      clear IH Hgood Ho. revert Hr. generalize (Z.rem m n'). intros r Hr. lia.
    - intros [-> [[Hn1 Hr1]|[Hn1 Hr1]]].
      + apply Hgood. split; [reflexivity|right]. split; [|exact Hn1].
        unfold in_type, int_min, int_max in *.
        pose proof (Z.quot_rem' m n') as Hq.
        pose proof (Z.rem_sign_nz m n') as Hs.
        rewrite Hr1 in Hq, Hs. rewrite Hn1 in Hq.
        specialize (Hs ltac:(lia)). cbn in Hs. lia.
      + unfold int_min in *. lia. }
  intros m. apply (H (Z.abs n)); [lia|reflexivity].
Qed.

(** X1: on values of the type, of either sign, the recursive helper never
    divides by zero; on [int] its remainder overflows exactly for the
    argument pairs (INT_MIN, -1) and (-1, INT_MIN); in every other case
    it returns a common divisor of both arguments that every common
    divisor divides. *)
Theorem gcd_is_greatest_common_divisor (T : int_type) (m n : Z) :
  in_type T m -> in_type T n ->
  gcd T m n <> DivByZero /\
  (gcd T m n = DivOverflow <->
   T = Int32 /\ ((m = int_min /\ n = -1) \/ (m = -1 /\ n = int_min))) /\
  (forall g, gcd T m n = Done g ->
     (g | m) /\ (g | n) /\ (forall c, (c | m) -> (c | n) -> (c | g))).
Proof.
  intros Tm Tn.
  assert (Hbad : T = Int32 /\
                 ((m = int_min /\ n = -1) \/ (m = -1 /\ n = int_min)) ->
                 gcd T m n = DivOverflow).
  { intros [-> [[-> ->]|[-> ->]]]; reflexivity. }
  assert (Hdec : (T = Int32 /\
                  ((m = int_min /\ n = -1) \/ (m = -1 /\ n = int_min))) \/
                 ~ (T = Int32 /\
                    ((m = int_min /\ n = -1) \/ (m = -1 /\ n = int_min)))).
  { destruct T; [right; intros [H _]; discriminate H|].
    destruct (Z.eq_dec m int_min), (Z.eq_dec n (-1)),
      (Z.eq_dec m (-1)), (Z.eq_dec n int_min); unfold int_min in *;
      try (left; split; [reflexivity|]; lia); right; intros [_ H]; lia. }
  split; [|split].
  - destruct Hdec as [Hb|Hg].
    + rewrite (Hbad Hb). discriminate.
    + destruct (gcd_returns T n m Tm Tn Hg) as [g ->]. discriminate.
  - split; [|exact Hbad].
    intros Htrap. destruct Hdec as [Hb|Hg]; [exact Hb|].
    destruct (gcd_returns T n m Tm Tn Hg) as [g Hrun].
    rewrite Hrun in Htrap. discriminate Htrap.
  - intros g Hrun. pose proof (gcd_done_abs T n m g Hrun) as H.
    repeat split.
    + apply Z.divide_abs_l. rewrite H. apply Z.gcd_divide_l.
    + apply Z.divide_abs_l. rewrite H. apply Z.gcd_divide_r.
    + intros c Hm Hn. apply Z.divide_abs_r. rewrite H.
      apply Z.gcd_greatest; assumption.
Qed.

Lemma gcd_is_greatest_common_divisor_witness :
  in_type Int32 int_min /\ in_type Int32 6 /\
  gcd Int32 int_min 6 = Done (-2) /\
  ((-2) | int_min) /\ ((-2) | 6).
Proof.
  assert (T1 : in_type Int32 int_min) by (cbn; unfold int_min, int_max; lia).
  assert (T2 : in_type Int32 6) by (cbn; unfold int_min, int_max; lia).
  split; [exact T1|]. split; [exact T2|]. split; [reflexivity|].
  destruct (gcd_is_greatest_common_divisor Int32 int_min 6 T1 T2)
    as (_ & _ & H).
  destruct (H (-2) eq_refl) as (H1 & H2 & _). split; assumption.
Defined.

(** X2: on non-negative values of the type, which is what [normalize_]
    passes whenever neither field is the minimum integer, the helper
    returns without trapping the value [std::gcd] returns, the greatest
    common divisor of the two arguments, zero only when both are. *)
Theorem gcd_helper_agrees_with_std_gcd (T : int_type) (m n : Z) :
  0 <= m -> 0 <= n -> in_type T m -> in_type T n ->
  gcd T m n = Done (std_gcd T m n) /\
  std_gcd T m n = Z.gcd m n /\
  (std_gcd T m n = 0 <-> m = 0 /\ n = 0).
Proof.
  intros Hm Hn Tm Tn.
  pose proof (sel_gcd_nonneg T Cpp14 m n Hm Hn Tm Tn) as H14.
  pose proof (sel_gcd_nonneg T Cpp17 m n Hm Hn Tm Tn) as H17.
  cbn in H14, H17. injection H17 as H17.
  rewrite H17. split; [exact H14|]. split; [reflexivity|apply Z.gcd_eq_0].
Qed.

Lemma gcd_helper_agrees_with_std_gcd_witness :
  0 <= 12 /\ 0 <= 18 /\ in_type Int32 12 /\ in_type Int32 18 /\
  gcd Int32 12 18 = Done (std_gcd Int32 12 18) /\
  std_gcd Int32 12 18 = 6.
Proof.
  assert (T1 : in_type Int32 12) by (cbn; unfold int_min, int_max; lia).
  assert (T2 : in_type Int32 18) by (cbn; unfold int_min, int_max; lia).
  split; [lia|]. split; [lia|]. split; [exact T1|]. split; [exact T2|].
  split; [|reflexivity].
  apply (gcd_helper_agrees_with_std_gcd Int32 12 18); auto; lia.
Defined.

(** ** Pairs in normal form *)

Lemma normalized_settled (T : int_type) (S : standard) (n d : Z) (f : fraction) :
  safe T n -> safe T d ->
  normalize_ T S (mk_fraction n d) = Done f -> settled T f.
Proof.
  intros Sn Sd Hrun.
  destruct (Z.eq_dec d 0) as [->|Hd].
  - right. destruct (Z.eq_dec n 0) as [->|Hn].
    + rewrite normalize_zero_zero in Hrun. discriminate Hrun.
    + rewrite normalize_zero_den in Hrun by assumption.
      injection Hrun as <-. fields. split; [reflexivity|lia].
  - left. destruct (normalize_legal T S n d Sn Sd Hd)
      as (f' & Hrun' & Hcan & _ & Bn & Bd).
    rewrite Hrun in Hrun'. injection Hrun' as <-.
    split; [exact Hcan|]. split.
    + exact (safe_le T _ n Bn Sn).
    + exact (safe_le T _ d Bd Sd).
Qed.

Lemma settled_safe (T : int_type) (f : fraction) :
  settled T f -> safe T (num f) /\ safe T (den f).
Proof.
  intros [[_ H]|[Hd Hn]]; [exact H|].
  split; apply safe_small; lia.
Qed.

Lemma normalize_settled (T : int_type) (S : standard) (f : fraction) :
  settled T f -> normalize_ T S f = Done f.
Proof.
  intros [[Hcan Hs]|[Hd Hn]].
  - apply normalize_canonical; assumption.
  - destruct f as [n d]. fields. subst d.
    rewrite normalize_zero_den by (try apply safe_small; lia).
    f_equal. f_equal. lia.
Qed.

Lemma settled_opp (T : int_type) (f : fraction) :
  settled T f -> settled T (mk_fraction (- num f) (den f)).
Proof.
  intros [[[Hg Hd] [Sn Sd]]|[Hd Hn]].
  - left. split; [split|split]; fields.
    + rewrite Z.abs_opp. exact Hg.
    + exact Hd.
    + apply safe_opp. exact Sn.
    + exact Sd.
  - right. fields. split; [exact Hd|lia].
Qed.

(** X3: normalization is idempotent on raw pairs without the minimum
    integer: whatever pair [normalize_] returns for such a pair,
    normalizing it again returns the same pair, without fault. *)
Theorem normalize_idempotent (T : int_type) (S : standard) (n d : Z) (g : fraction) :
  safe T n -> safe T d ->
  normalize_ T S (mk_fraction n d) = Done g -> normalize_ T S g = Done g.
Proof.
  intros Sn Sd Hrun. apply normalize_settled.
  exact (normalized_settled T S n d g Sn Sd Hrun).
Qed.

Lemma normalize_idempotent_witness :
  safe Int32 15 /\ safe Int32 (-63) /\
  normalize_ Int32 Cpp14 (mk_fraction 15 (-63)) = Done (mk_fraction (-5) 21) /\
  normalize_ Int32 Cpp14 (mk_fraction (-5) 21) = Done (mk_fraction (-5) 21).
Proof.
  assert (S1 : safe Int32 15) by (cbn; unfold int_max; lia).
  assert (S2 : safe Int32 (-63)) by (cbn; unfold int_max; lia).
  split; [exact S1|]. split; [exact S2|]. split; [reflexivity|].
  exact (normalize_idempotent Int32 Cpp14 15 (-63) _ S1 S2 eq_refl).
Defined.

(** X4: the illegal values a program can hold (denominator zero) have
    numerator 1 or -1: the pair (0, 0) is never stored. *)
Theorem produced_illegal_is_unit (T : int_type) (S : standard) (f : fraction) :
  produced T S f -> is_legal f = false ->
  den f = 0 /\ (num f = 1 \/ num f = -1).
Proof. apply produced_illegal_shape. Qed.

Lemma produced_illegal_is_unit_witness :
  produced Int32 Cpp17 (mk_fraction 1 0) /\
  is_legal (mk_fraction 1 0) = false /\
  den (mk_fraction 1 0) = 0 /\
  (num (mk_fraction 1 0) = 1 \/ num (mk_fraction 1 0) = -1).
Proof.
  assert (Hp : produced Int32 Cpp17 (mk_fraction 1 0)).
  { apply (produced_ctor Int32 Cpp17 int_min 0);
      [cbn; unfold int_min, int_max; lia|cbn; unfold int_min, int_max; lia|].
    reflexivity. }
  split; [exact Hp|]. split; [reflexivity|].
  exact (produced_illegal_is_unit Int32 Cpp17 _ Hp eq_refl).
Defined.

(** ** Unary minus *)

Lemma operator_neg_settled (T : int_type) (S : standard) (a : fraction) :
  settled T a ->
  operator_neg T S a = Done (mk_fraction (- num a) (den a)).
Proof.
  intros Ha. unfold operator_neg, fraction_ctor, int_neg.
  destruct (settled_safe T a Ha) as [Sn _]. unfold num in Sn |- *.
  rewrite (fit_safe T _ (safe_opp T _ Sn)).
  apply (normalize_settled T S _ (settled_opp T a Ha)).
Qed.

(** X5: on a pair in normal form (canonical with fields other than the
    minimum integer, or one of the illegal pairs (1, 0), (-1, 0)), unary
    minus never faults, returns exactly (-num, den), and negating the
    result gives back the operand. *)
Theorem unary_minus_involution (T : int_type) (S : standard) (a : fraction) :
  settled T a ->
  operator_neg T S a = Done (mk_fraction (- num a) (den a)) /\
  operator_neg T S (mk_fraction (- num a) (den a)) = Done a.
Proof.
  intros Ha. split; [apply operator_neg_settled; exact Ha|].
  rewrite (operator_neg_settled T S _ (settled_opp T a Ha)). fields.
  rewrite Z.opp_involutive. destruct a. reflexivity.
Qed.

Lemma unary_minus_involution_witness :
  settled Int32 (mk_fraction 5 21) /\
  operator_neg Int32 Cpp14 (mk_fraction 5 21) = Done (mk_fraction (-5) 21) /\
  operator_neg Int32 Cpp14 (mk_fraction (-5) 21) = Done (mk_fraction 5 21).
Proof.
  assert (Hs : settled Int32 (mk_fraction 5 21)).
  { left. repeat split; cbn; unfold int_max; try reflexivity; lia. }
  split; [exact Hs|]. exact (unary_minus_involution Int32 Cpp14 _ Hs).
Defined.

(** ** Neutral elements *)

Lemma fit_zero (T : int_type) : fit T 0 = 0.
Proof. destruct T; reflexivity. Qed.

Lemma fit_one (T : int_type) : fit T 1 = 1.
Proof. destruct T; reflexivity. Qed.

(** X6: on a pair in normal form, legal or not, adding or subtracting the
    integer 0 and multiplying or dividing by the integer 1 return the
    operand itself. *)
Theorem neutral_integers (T : int_type) (S : standard) (a : fraction) :
  settled T a ->
  operator_add T S a (Int 0) = Done a /\
  operator_sub T S a (Int 0) = Done a /\
  operator_mul T S a (Int 1) = Done a /\
  operator_div T S a (Int 1) = Done a.
Proof.
  intros Ha.
  pose proof (normalize_settled T S a Ha) as Hfix.
  destruct (settled_safe T a Ha) as [Sn Sd].
  destruct a as [n d]. fields.
  assert (T0 : in_type T 0) by (apply in_type_small; cbn; lia).
  assert (T1 : in_type T 1) by (apply in_type_small; cbn; lia).
  unfold operator_add, operator_sub, operator_mul, operator_div,
    add_assign_int, sub_assign_int, mul_assign_int, div_assign_int.
  rewrite !fraction_of_int_eq by assumption. cbn [bind].
  unfold add_assign, sub_assign, mul_assign, div_assign, normalize_2,
    int_add, int_sub, int_mul. fields.
  rewrite !Z.mul_1_r, !Z.mul_0_r, fit_zero, !(fit_safe T n Sn),
    !(fit_safe T d Sd), Z.add_0_r, Z.sub_0_r, !(fit_safe T n Sn).
  repeat split; exact Hfix.
Qed.

Lemma neutral_integers_witness :
  settled Int32 (mk_fraction (-2) 3) /\
  operator_add Int32 Cpp17 (mk_fraction (-2) 3) (Int 0) = Done (mk_fraction (-2) 3) /\
  operator_sub Int32 Cpp17 (mk_fraction (-2) 3) (Int 0) = Done (mk_fraction (-2) 3) /\
  operator_mul Int32 Cpp17 (mk_fraction (-2) 3) (Int 1) = Done (mk_fraction (-2) 3) /\
  operator_div Int32 Cpp17 (mk_fraction (-2) 3) (Int 1) = Done (mk_fraction (-2) 3).
Proof.
  assert (Hs : settled Int32 (mk_fraction (-2) 3)).
  { left. repeat split; cbn; unfold int_max; try reflexivity; lia. }
  split; [exact Hs|]. exact (neutral_integers Int32 Cpp17 _ Hs).
Defined.

(** ** Zero, and the operand against itself *)

(** X7: for a legal value a = (n, d) whose fields are not the minimum
    integer, a * 0 is the canonical zero (0, 1); a - a is (0, 1) when d*d
    does not overflow; and a / a is (1, 1) when n <> 0 and n*d does not
    overflow. *)
Theorem legal_value_against_itself (T : int_type) (S : standard) (a : fraction) :
  is_legal a = true -> safe_fields T a ->
  operator_mul T S a (Int 0) = Done (mk_fraction 0 1) /\
  (safe T (den a * den a) ->
   operator_sub T S a (Frac a) = Done (mk_fraction 0 1)) /\
  (num a <> 0 -> safe T (num a * den a) ->
   operator_div T S a (Frac a) = Done (mk_fraction 1 1)).
Proof.
  intros Hl [Sn Sd]. apply legal_iff in Hl. destruct a as [n d]. fields.
  assert (T0 : in_type T 0) by (apply in_type_small; cbn; lia).
  split; [|split].
  - unfold operator_mul, mul_assign_int.
    rewrite fraction_of_int_eq by exact T0. cbn [bind].
    unfold mul_assign, normalize_2, int_mul. fields.
    rewrite Z.mul_0_r, Z.mul_1_r, fit_zero, (fit_safe T d Sd).
    apply normalize_zero_num; assumption.
  - intros Sdd.
    unfold operator_sub, sub_assign, normalize_2, int_sub, int_mul. fields.
    rewrite (Z.mul_comm d n), Z.sub_diag, fit_zero, (fit_safe T _ Sdd).
    apply normalize_zero_num; [exact Sdd|apply Z.neq_mul_0; auto].
  - intros Hn Snd.
    unfold operator_div, div_assign, normalize_2, int_mul. fields.
    rewrite (Z.mul_comm d n), (fit_safe T _ Snd).
    apply normalize_of_value; try assumption.
    + apply Z.neq_mul_0; auto.
    + split; fields; [reflexivity|lia].
    + unfold same_value. fields. ring.
Qed.

Lemma legal_value_against_itself_witness :
  is_legal (mk_fraction 5 21) = true /\
  safe_fields Int32 (mk_fraction 5 21) /\
  operator_mul Int32 Cpp14 (mk_fraction 5 21) (Int 0) = Done (mk_fraction 0 1) /\
  operator_sub Int32 Cpp14 (mk_fraction 5 21) (Frac (mk_fraction 5 21))
  = Done (mk_fraction 0 1) /\
  operator_div Int32 Cpp14 (mk_fraction 5 21) (Frac (mk_fraction 5 21))
  = Done (mk_fraction 1 1).
Proof.
  assert (Hs : safe_fields Int32 (mk_fraction 5 21))
    by (split; cbn; unfold int_max; lia).
  split; [reflexivity|]. split; [exact Hs|].
  destruct (legal_value_against_itself Int32 Cpp14 (mk_fraction 5 21) eq_refl Hs)
    as (Hm & Hsub & Hdiv).
  split; [exact Hm|]. split.
  - apply Hsub. cbn. unfold int_max. lia.
  - apply Hdiv; cbn; unfold int_max; lia.
Defined.

(** X8: on an illegal value a program can hold, a * 0 and a - a divide by
    zero: the raw pair is (0, 0). *)
Theorem illegal_value_against_itself_faults
    (T : int_type) (S : standard) (a : fraction) :
  produced T S a -> is_legal a = false ->
  operator_mul T S a (Int 0) = DivByZero /\
  operator_sub T S a (Frac a) = DivByZero.
Proof.
  intros Hp Hl.
  destruct (produced_illegal_shape T S a Hp Hl) as [Hd Hn].
  destruct a as [n d]. fields. subst d.
  assert (T0 : in_type T 0) by (apply in_type_small; cbn; lia).
  split.
  - unfold operator_mul, mul_assign_int.
    rewrite fraction_of_int_eq by exact T0. cbn [bind].
    unfold mul_assign, normalize_2, int_mul. fields.
    rewrite Z.mul_0_r, Z.mul_0_l, fit_zero. apply normalize_zero_zero.
  - unfold operator_sub, sub_assign, normalize_2, int_sub, int_mul. fields.
    rewrite Z.mul_0_r, !Z.mul_0_l, fit_zero, Z.sub_diag, fit_zero.
    apply normalize_zero_zero.
Qed.

Lemma illegal_value_against_itself_faults_witness :
  produced Int32 Cpp14 (mk_fraction 1 0) /\ is_legal (mk_fraction 1 0) = false /\
  operator_mul Int32 Cpp14 (mk_fraction 1 0) (Int 0) = DivByZero /\
  operator_sub Int32 Cpp14 (mk_fraction 1 0) (Frac (mk_fraction 1 0)) = DivByZero.
Proof.
  assert (Hp : produced Int32 Cpp14 (mk_fraction 1 0)).
  { apply (produced_ctor Int32 Cpp14 6 0);
      [cbn; unfold int_min, int_max; lia|cbn; unfold int_min, int_max; lia|].
    reflexivity. }
  split; [exact Hp|]. split; [reflexivity|].
  exact (illegal_value_against_itself_faults Int32 Cpp14 _ Hp eq_refl).
Defined.

(** ** Commutativity, and subtraction through negation *)

(** X9: addition and multiplication are commutative on every pair of
    operands, in the value returned and in the fault. *)
Theorem add_mul_commutative (T : int_type) (S : standard) (a b : fraction) :
  operator_add T S a (Frac b) = operator_add T S b (Frac a) /\
  operator_mul T S a (Frac b) = operator_mul T S b (Frac a).
Proof.
  split; unfold operator_add, operator_mul, add_assign, mul_assign,
    normalize_2, int_add, int_mul; fields; apply normalize_fields.
  - rewrite (Z.mul_comm (num_ b) (den_ a)), (Z.mul_comm (den_ b) (num_ a)).
    rewrite Z.add_comm. reflexivity.
  - rewrite (Z.mul_comm (den_ b) (den_ a)). reflexivity.
  - rewrite (Z.mul_comm (num_ b) (num_ a)). reflexivity.
  - rewrite (Z.mul_comm (den_ b) (den_ a)). reflexivity.
Qed.

(** X10: for every a and every b in normal form, a - b gives the same
    result (value or fault) as a + (-b), also when the products wrap
    around. *)
Theorem sub_is_add_of_negation (T : int_type) (S : standard) (a b : fraction) :
  settled T b ->
  operator_sub T S a (Frac b) =
  (nb <- operator_neg T S b ;; operator_add T S a (Frac nb)).
Proof.
  intros Hb. rewrite (operator_neg_settled T S b Hb). cbn [bind].
  unfold operator_sub, operator_add, sub_assign, add_assign, normalize_2,
    int_sub, int_add, int_mul. fields.
  apply normalize_fields; [|reflexivity].
  rewrite fit_sub_r, fit_add_r. f_equal. ring.
Qed.

Lemma sub_is_add_of_negation_witness :
  settled Int32 (mk_fraction 1 2) /\
  operator_sub Int32 Cpp14 (mk_fraction 5 21) (Frac (mk_fraction 1 2)) =
  (nb <- operator_neg Int32 Cpp14 (mk_fraction 1 2) ;;
   operator_add Int32 Cpp14 (mk_fraction 5 21) (Frac nb)) /\
  operator_sub Int32 Cpp14 (mk_fraction 5 21) (Frac (mk_fraction 1 2)) =
  Done (mk_fraction (-11) 42).
Proof.
  assert (Hs : settled Int32 (mk_fraction 1 2)).
  { left. repeat split; cbn; unfold int_max; try reflexivity; lia. }
  split; [exact Hs|]. split; [|reflexivity].
  exact (sub_is_add_of_negation Int32 Cpp14 (mk_fraction 5 21) _ Hs).
Defined.

(** ** Illegal operands *)

(** X11: an illegal operand on either side of +, - or *, and an illegal
    left operand of /, never gives a legal result: the operation either
    returns an illegal value or divides by zero. *)
Theorem illegal_operand_never_legal
    (T : int_type) (S : standard) (op : binop) (a b c : fraction) :
  (is_legal a = false \/ (op <> Div /\ is_legal b = false)) ->
  apply_binop T S op a (Frac b) = Done c ->
  is_legal c = false.
Proof.
  intros Hill Hrun.
  assert (Hraw : snd (spec_raw T op a b) = 0).
  { destruct Hill as [Ha|[Hop Hb]].
    - apply illegal_iff in Ha.
      destruct op; cbn [spec_raw snd]; unfold int_mul;
        rewrite Ha, Z.mul_0_l; apply fit_zero.
    - apply illegal_iff in Hb.
      destruct op; try congruence; cbn [spec_raw snd]; unfold int_mul;
        rewrite Hb, Z.mul_0_r; apply fit_zero. }
  rewrite binop_frac_raw, Hraw in Hrun.
  apply illegal_iff. exact (normalize_zero_den_stays T S _ c Hrun).
Qed.

Lemma illegal_operand_never_legal_witness :
  is_legal (mk_fraction 1 0) = false /\
  operator_add Int32 Cpp14 (mk_fraction 1 0) (Frac (mk_fraction 1 2))
  = Done (mk_fraction 1 0) /\
  is_legal (mk_fraction 1 0) = false.
Proof.
  split; [reflexivity|]. split; [reflexivity|].
  apply (illegal_operand_never_legal Int32 Cpp14 Add
           (mk_fraction 1 0) (mk_fraction 1 2)).
  - left. reflexivity.
  - reflexivity.
Defined.

(** X12: dividing a legal value whose denominator is not the minimum
    integer by an illegal value a program can hold gives the legal value
    zero, (0, 1). *)
Theorem division_by_illegal_is_zero (T : int_type) (S : standard) (a b : fraction) :
  is_legal a = true -> safe T (den a) ->
  produced T S b -> is_legal b = false ->
  operator_div T S a (Frac b) = Done (mk_fraction 0 1).
Proof.
  intros Ha Sd Hp Hb. apply legal_iff in Ha.
  destruct (produced_illegal_shape T S b Hp Hb) as [Hd Hn].
  unfold operator_div, div_assign, normalize_2, int_mul. fields.
  rewrite Hd, Z.mul_0_r, fit_zero.
  assert (Sp : safe T (den_ a * num_ b)).
  { apply (safe_le T _ (den_ a)); [|exact Sd]. rewrite Z.abs_mul. nia. }
  rewrite (fit_safe T _ Sp).
  apply normalize_zero_num; [exact Sp|apply Z.neq_mul_0; split; [exact Ha|lia]].
Qed.

Lemma division_by_illegal_is_zero_witness :
  is_legal (mk_fraction 3 4) = true /\ safe Int32 (den (mk_fraction 3 4)) /\
  produced Int32 Cpp14 (mk_fraction (-1) 0) /\
  is_legal (mk_fraction (-1) 0) = false /\
  operator_div Int32 Cpp14 (mk_fraction 3 4) (Frac (mk_fraction (-1) 0))
  = Done (mk_fraction 0 1).
Proof.
  assert (Hp : produced Int32 Cpp14 (mk_fraction (-1) 0)).
  { apply (produced_ctor Int32 Cpp14 (-7) 0);
      [cbn; unfold int_min, int_max; lia|cbn; unfold int_min, int_max; lia|].
    reflexivity. }
  assert (Sd : safe Int32 (den (mk_fraction 3 4))) by (cbn; unfold int_max; lia).
  split; [reflexivity|]. split; [exact Sd|]. split; [exact Hp|].
  split; [reflexivity|].
  exact (division_by_illegal_is_zero Int32 Cpp14 (mk_fraction 3 4)
           (mk_fraction (-1) 0) eq_refl Sd Hp eq_refl).
Defined.

(** ** The operators compute exact rational arithmetic when nothing
       overflows *)




Lemma canonical_legal (f : fraction) : canonical f -> is_legal f = true.
Proof. intros [_ H]. apply legal_iff. lia. Qed.

Lemma add_exact (T : int_type) (S : standard) (a b : fraction) :
  0 < den a -> 0 < den b -> no_overflow T Add a b ->
  exists r, operator_add T S a (Frac b) = Done r /\ canonical r /\
            (to_Q r == to_Q a + to_Q b)%Q /\
            Z.abs (num r) <= Z.abs (num a * den b + den a * num b) /\
            Z.abs (den r) <= Z.abs (den a * den b).
Proof.
  intros Ha Hb (S1 & S2 & S3 & S4).
  assert (Hprod : den a * den b <> 0) by (apply Z.neq_mul_0; split; lia).
  destruct (normalize_legal T S _ _ S3 S4 Hprod)
    as (r & Hrun & Hcan & Hval & Bn & Bd).
  exists r. split; [|split; [exact Hcan|split; [|split; assumption]]].
  - unfold operator_add, add_assign, normalize_2, int_add, int_mul.
    rewrite (fit_safe T _ S1), (fit_safe T _ S2), (fit_safe T _ S3),
      (fit_safe T _ S4). exact Hrun.
  - assert (Hr : 0 < den r) by apply Hcan.
    unfold same_value in Hval.
    unfold to_Q, Qeq, Qplus. cbn [Qnum Qden].
    rewrite !Pos2Z.inj_mul, !Z2Pos.id by assumption. lia.
Qed.

Lemma sub_exact (T : int_type) (S : standard) (a b : fraction) :
  0 < den a -> 0 < den b -> no_overflow T Sub a b ->
  exists r, operator_sub T S a (Frac b) = Done r /\ canonical r /\
            (to_Q r == to_Q a - to_Q b)%Q.
Proof.
  intros Ha Hb (S1 & S2 & S3 & S4).
  assert (Hprod : den a * den b <> 0) by (apply Z.neq_mul_0; split; lia).
  destruct (normalize_legal T S _ _ S3 S4 Hprod)
    as (r & Hrun & Hcan & Hval & _).
  exists r. split; [|split; [exact Hcan|]].
  - unfold operator_sub, sub_assign, normalize_2, int_sub, int_mul.
    rewrite (fit_safe T _ S1), (fit_safe T _ S2), (fit_safe T _ S3),
      (fit_safe T _ S4). exact Hrun.
  - assert (Hr : 0 < den r) by apply Hcan.
    unfold same_value in Hval.
    unfold to_Q, Qeq, Qminus, Qplus, Qopp. cbn [Qnum Qden].
    rewrite !Pos2Z.inj_mul, !Z2Pos.id by assumption. lia.
Qed.

Lemma mul_exact (T : int_type) (S : standard) (a b : fraction) :
  0 < den a -> 0 < den b -> no_overflow T Mul a b ->
  exists r, operator_mul T S a (Frac b) = Done r /\ canonical r /\
            (to_Q r == to_Q a * to_Q b)%Q /\
            Z.abs (num r) <= Z.abs (num a * num b) /\
            Z.abs (den r) <= Z.abs (den a * den b).
Proof.
  intros Ha Hb (S1 & S2).
  assert (Hprod : den a * den b <> 0) by (apply Z.neq_mul_0; split; lia).
  destruct (normalize_legal T S _ _ S1 S2 Hprod)
    as (r & Hrun & Hcan & Hval & Bn & Bd).
  exists r. split; [|split; [exact Hcan|split; [|split; assumption]]].
  - unfold operator_mul, mul_assign, normalize_2, int_mul.
    rewrite (fit_safe T _ S1), (fit_safe T _ S2). exact Hrun.
  - assert (Hr : 0 < den r) by apply Hcan.
    unfold same_value in Hval.
    unfold to_Q, Qeq, Qmult. cbn [Qnum Qden].
    rewrite !Pos2Z.inj_mul, !Z2Pos.id by assumption. lia.
Qed.


(** X13: on operands with positive denominators, when no product, sum or
    difference computed by the operator overflows, [+], [-] and [*]
    return a legal value in canonical form that stands for the exact
    rational sum, difference and product of the operands. *)
Theorem ring_operations_exact (T : int_type) (S : standard) (a b : fraction) :
  0 < den a -> 0 < den b ->
  (no_overflow T Add a b ->
   exists r, operator_add T S a (Frac b) = Done r /\ is_legal r = true /\
             canonical r /\ (to_Q r == to_Q a + to_Q b)%Q) /\
  (no_overflow T Sub a b ->
   exists r, operator_sub T S a (Frac b) = Done r /\ is_legal r = true /\
             canonical r /\ (to_Q r == to_Q a - to_Q b)%Q) /\
  (no_overflow T Mul a b ->
   exists r, operator_mul T S a (Frac b) = Done r /\ is_legal r = true /\
             canonical r /\ (to_Q r == to_Q a * to_Q b)%Q).
Proof.
  intros Ha Hb. split; [|split]; intros Hno.
  - destruct (add_exact T S a b Ha Hb Hno) as (r & H & C & V & _).
    exists r. auto using canonical_legal.
  - destruct (sub_exact T S a b Ha Hb Hno) as (r & H & C & V).
    exists r. auto using canonical_legal.
  - destruct (mul_exact T S a b Ha Hb Hno) as (r & H & C & V & _).
    exists r. auto using canonical_legal.
Qed.

Lemma ring_operations_exact_witness :
  0 < den (mk_fraction 1 6) /\ 0 < den (mk_fraction 1 3) /\
  no_overflow Int32 Add (mk_fraction 1 6) (mk_fraction 1 3) /\
  (exists r, operator_add Int32 Cpp14 (mk_fraction 1 6) (Frac (mk_fraction 1 3))
             = Done r /\
             is_legal r = true /\ canonical r /\
             (to_Q r == to_Q (mk_fraction 1 6) + to_Q (mk_fraction 1 3))%Q) /\
  operator_add Int32 Cpp14 (mk_fraction 1 6) (Frac (mk_fraction 1 3))
  = Done (mk_fraction 1 2).
Proof.
  assert (Ha : 0 < den (mk_fraction 1 6)) by (cbn; lia).
  assert (Hb : 0 < den (mk_fraction 1 3)) by (cbn; lia).
  assert (Hno : no_overflow Int32 Add (mk_fraction 1 6) (mk_fraction 1 3))
    by (cbn; unfold int_max; lia).
  split; [exact Ha|]. split; [exact Hb|]. split; [exact Hno|].
  split; [|reflexivity].
  exact (proj1 (ring_operations_exact Int32 Cpp14 _ _ Ha Hb) Hno).
Defined.



(** ** Associativity *)








(** ** The two gcd functions *)

(** X16: on raw pairs without the minimum integer the class does not
    depend on which gcd the preprocessor selects: [normalize_] returns
    the same pair, or the same fault, with the helper and with
    [std::gcd].  With the minimum integer it can: on (INT_MIN, 6) the
    helper gives (1073741824, -3) and [std::gcd] gives
    (-1073741824, 3). *)
Theorem normalize_independent_of_gcd_choice (T : int_type) (n d : Z) :
  safe T n -> safe T d ->
  normalize_ T Cpp14 (mk_fraction n d) = normalize_ T Cpp17 (mk_fraction n d) /\
  normalize_ Int32 Cpp14 (mk_fraction int_min 6)
  = Done (mk_fraction 1073741824 (-3)) /\
  normalize_ Int32 Cpp17 (mk_fraction int_min 6)
  = Done (mk_fraction (-1073741824) 3).
Proof.
  intros Sn Sd. split; [|split; reflexivity].
  destruct (Z.eq_dec (Z.gcd n d) 0) as [Hg|Hg].
  - apply Z.gcd_eq_0 in Hg. destruct Hg as [-> ->].
    rewrite !normalize_zero_zero. reflexivity.
  - rewrite !normalize_safe by assumption. reflexivity.
Qed.

Lemma normalize_independent_of_gcd_choice_witness :
  safe Int32 15 /\ safe Int32 (-63) /\
  normalize_ Int32 Cpp14 (mk_fraction 15 (-63))
  = normalize_ Int32 Cpp17 (mk_fraction 15 (-63)).
Proof.
  assert (S1 : safe Int32 15) by (cbn; unfold int_max; lia).
  assert (S2 : safe Int32 (-63)) by (cbn; unfold int_max; lia).
  split; [exact S1|]. split; [exact S2|].
  exact (proj1 (normalize_independent_of_gcd_choice Int32 15 (-63) S1 S2)).
Defined.

(** ** Comparisons *)



(** X18: on every pair of operands, legal or not, [!=] is the negation of
    [==], [>=] the negation of [<], [<=] the negation of [>], and [>] and
    [>=] are [<] and [<=] with the operands exchanged. *)
Theorem comparisons_consistent (T : int_type) (a b : fraction) :
  operator_ne a b = negb (operator_eq a b) /\
  operator_ge T a b = negb (operator_lt T a b) /\
  operator_le T a b = negb (operator_gt T a b) /\
  operator_gt T a b = operator_lt T b a /\
  operator_ge T a b = operator_le T b a.
Proof.
  unfold operator_ne, operator_eq, operator_ge, operator_lt, operator_le,
    operator_gt.
  repeat split.
  - rewrite negb_andb. reflexivity.
  - rewrite Z.geb_leb, Z.leb_antisym. reflexivity.
  - rewrite Z.gtb_ltb, Z.leb_antisym. reflexivity.
  - rewrite Z.gtb_ltb. reflexivity.
  - rewrite Z.geb_leb. reflexivity.
Qed.



(** ** Integral values and the zero test *)

(** X20: for d <> 0, with neither n nor d the minimum integer, the value
    built from (n, d) is integral exactly when d divides n, and then its
    numerator is the quotient n / d. *)
Theorem constructed_integral_iff_divides
    (T : int_type) (S : standard) (n d : Z) :
  safe T n -> safe T d -> d <> 0 ->
  exists f, fraction_ctor T S n d = Done f /\
            (is_integral f = true <-> (d | n)) /\
            (is_integral f = true -> num f = Z.quot n d).
Proof.
  intros Sn Sd Hd.
  destruct (normalize_legal T S n d Sn Sd Hd) as (f & Hrun & Hcan & Hval & _).
  exists f. split; [exact Hrun|].
  unfold is_integral, same_value in *. rewrite Z.eqb_eq.
  assert (Hquot : den_ f = 1 -> n = num f * d).
  { intros H1. unfold den in Hval. rewrite H1 in Hval. lia. }
  split; [split|].
  - intros H1. exists (num f). exact (Hquot H1).
  - intros [k Hk].
    assert (Hf : f = mk_fraction k 1).
    { apply canonical_unique; [exact Hcan| |].
      - split; fields; [apply Z.gcd_1_r|lia].
      - fields. apply (Z.mul_cancel_r _ _ d Hd).
        transitivity (num_ f * d); [ring|]. rewrite Hval, Hk. ring. }
    rewrite Hf. reflexivity.
  - intros H1. rewrite (Hquot H1). symmetry. apply Z.quot_mul. exact Hd.
Qed.

Lemma constructed_integral_iff_divides_witness :
  safe Int32 12 /\ safe Int32 (-4) /\ (-4) <> 0 /\
  exists f, fraction_ctor Int32 Cpp14 12 (-4) = Done f /\
            (is_integral f = true <-> ((-4) | 12)) /\
            (is_integral f = true -> num f = Z.quot 12 (-4)).
Proof.
  assert (S1 : safe Int32 12) by (cbn; unfold int_max; lia).
  assert (S2 : safe Int32 (-4)) by (cbn; unfold int_max; lia).
  split; [exact S1|]. split; [exact S2|]. split; [lia|].
  apply (constructed_integral_iff_divides Int32 Cpp14 12 (-4) S1 S2). lia.
Defined.

(** X21: for every value v of the type, the minimum integer included,
    the one-argument constructor and the assignment from an integer
    return (v, 1) without fault, and that value is integral; conversely
    an integral value is what the one-argument constructor builds from
    its numerator. *)
Theorem integral_iff_built_from_integer
    (T : int_type) (S : standard) (self f : fraction) (v : Z) :
  (in_type T v ->
   fraction_of_int T S v = Done (mk_fraction v 1) /\
   assign_int T S self v = Done (mk_fraction v 1) /\
   is_integral (mk_fraction v 1) = true) /\
  (in_type T (num f) -> is_integral f = true ->
   fraction_of_int T S (num f) = Done f).
Proof.
  split.
  - intros Tv. unfold assign_int.
    rewrite fraction_of_int_eq by exact Tv. repeat split.
  - intros Tn H1. unfold is_integral in H1. apply Z.eqb_eq in H1.
    rewrite fraction_of_int_eq by exact Tn.
    destruct f as [n d]. cbn in *. subst d. reflexivity.
Qed.

Lemma integral_iff_built_from_integer_witness :
  in_type Int32 int_min /\
  fraction_of_int Int32 Cpp14 int_min = Done (mk_fraction int_min 1) /\
  assign_int Int32 Cpp14 (mk_fraction 1 2) int_min = Done (mk_fraction int_min 1) /\
  is_integral (mk_fraction int_min 1) = true.
Proof.
  assert (Tv : in_type Int32 int_min) by (cbn; unfold int_min, int_max; lia).
  split; [exact Tv|].
  exact (proj1 (integral_iff_built_from_integer Int32 Cpp14
                  (mk_fraction 1 2) (mk_fraction 0 1) int_min) Tv).
Defined.

(** X22: on the value built from a pair (n, d) without the minimum
    integer, the explicit conversion to bool is true exactly when the
    value is the canonical zero (0, 1), which is exactly when n = 0, and
    [operator!] is true in all other cases. *)
Theorem conversion_to_bool_tests_zero
    (T : int_type) (S : standard) (n d : Z) (f : fraction) :
  safe T n -> safe T d ->
  fraction_ctor T S n d = Done f ->
  (operator_bool f = true <-> f = mk_fraction 0 1) /\
  (operator_bool f = true <-> n = 0) /\
  (operator_not f = true <-> n <> 0).
Proof.
  intros Sn Sd Hrun. unfold fraction_ctor in Hrun.
  assert (Hz : num_ f = 0 <-> f = mk_fraction 0 1).
  { split; [|intros ->; reflexivity].
    intros Hn.
    destruct (normalized_settled T S n d f Sn Sd Hrun) as [[Hcan _]|[_ H1]].
    - apply canonical_zero; assumption.
    - unfold num in H1. lia. }
  assert (Hn : num_ f = 0 <-> n = 0).
  { destruct (Z.eq_dec d 0) as [->|Hd].
    - destruct (Z.eq_dec n 0) as [->|Hn0].
      + rewrite normalize_zero_zero in Hrun. discriminate Hrun.
      + rewrite normalize_zero_den in Hrun by assumption.
        injection Hrun as <-. cbn [num_]. lia.
    - destruct (normalize_legal T S n d Sn Sd Hd)
        as (f' & Hrun' & Hcan & Hval & _).
      rewrite Hrun in Hrun'. injection Hrun' as <-.
      unfold same_value, num in Hval. destruct Hcan as [_ Hden].
      split; intros H0.
      + rewrite H0 in Hval. nia.
      + rewrite H0 in Hval. nia. }
  unfold operator_bool, operator_not.
  rewrite negb_true_iff, Z.eqb_eq, Z.eqb_neq, <- Hn.
  split; [exact Hz|]. split; reflexivity.
Qed.

Lemma conversion_to_bool_tests_zero_witness :
  safe Int32 0 /\ safe Int32 (-7) /\
  fraction_ctor Int32 Cpp14 0 (-7) = Done (mk_fraction 0 1) /\
  operator_bool (mk_fraction 0 1) = true /\
  operator_not (mk_fraction 0 1) = false.
Proof.
  assert (S1 : safe Int32 0) by (cbn; unfold int_max; lia).
  assert (S2 : safe Int32 (-7)) by (cbn; unfold int_max; lia).
  split; [exact S1|]. split; [exact S2|]. split; [reflexivity|].
  split; [|reflexivity].
  apply (proj1 (conversion_to_bool_tests_zero Int32 Cpp14 0 (-7) _ S1 S2 eq_refl)).
  reflexivity.
Defined.

(** ** Integer right operands *)




(** * The scenarios of the specification, and the edge of the range *)

Example scenario_zero_numerator :
  fraction_ctor Int32 Cpp14 0 (-7) = Done (mk_fraction 0 1).
Proof. reflexivity. Qed.

Example scenario_sum :
  operator_add Int32 Cpp14 (mk_fraction 5 21) (Frac (mk_fraction 1 2))
  = Done (mk_fraction 31 42).
Proof. reflexivity. Qed.

Example scenario_difference :
  operator_sub Int32 Cpp14 (mk_fraction 5 21) (Frac (mk_fraction 5 21))
  = Done (mk_fraction 0 1).
Proof. reflexivity. Qed.

Example scenario_scalar_product :
  operator_mul Int32 Cpp14 (mk_fraction 1 2) (Int 4) = Done (mk_fraction 2 1) /\
  is_integral (mk_fraction 2 1) = true.
Proof. split; reflexivity. Qed.

Example scenario_comparisons :
  operator_lt Int32 (mk_fraction 1 3) (mk_fraction 1 2) = true /\
  operator_lt Int32 (mk_fraction (-1) 2) (mk_fraction 1 3) = true.
Proof. split; reflexivity. Qed.

(** The test at the end of the header: [f1(15, 63)], [f2 = -f1],
    [f3 = f1 + f2]. *)
Example header_test :
  (f1 <- fraction_ctor Int32 Cpp14 15 63 ;;
   f2 <- operator_neg Int32 Cpp14 f1 ;;
   f3 <- operator_add Int32 Cpp14 f1 (Frac f2) ;;
   Done (f1, f2, f3))
  = Done (mk_fraction 5 21, mk_fraction (-5) 21, mk_fraction 0 1).
Proof. reflexivity. Qed.

(** [fraction<int>] where the arithmetic of [int] wraps around. *)
Example int_min_numerator_zero_denominator :
  fraction_ctor Int32 Cpp14 int_min 0 = Done (mk_fraction 1 0) /\
  fraction_ctor Int32 Cpp17 int_min 0 = Done (mk_fraction 1 0).
Proof. split; reflexivity. Qed.

Example int_min_denominator :
  fraction_ctor Int32 Cpp14 (-1) int_min = Done (mk_fraction 1 int_min) /\
  fraction_ctor Int32 Cpp14 0 int_min = Done (mk_fraction 0 (-1)).
Proof. split; reflexivity. Qed.

Example wrapped_product :
  operator_mul Int32 Cpp14 (mk_fraction 65536 1) (Frac (mk_fraction 65536 1))
  = Done (mk_fraction 0 1) /\
  operator_add Int32 Cpp14 (mk_fraction 1 65536) (Frac (mk_fraction 1 65536))
  = Done (mk_fraction 1 0) /\
  operator_lt Int32 (mk_fraction 65536 1) (mk_fraction 1 65536) = true.
Proof. repeat split. Qed.

Example wrapped_negation :
  operator_neg Int32 Cpp14 (mk_fraction int_min 1) = Done (mk_fraction int_min 1).
Proof. reflexivity. Qed.

Example helper_quotient_overflow :
  gcd Int32 int_min 5 = Done (-1) /\
  fraction_ctor Int32 Cpp14 int_min 5 = DivOverflow /\
  fraction_ctor Int32 Cpp17 int_min 5 = Done (mk_fraction int_min 5).
Proof. repeat split. Qed.
